(** * Block CDCN normalisation (sphinx2, [libsphinx2/blk_cdcn_norm.c])

    A shallow embedding of [block_cdcn_norm] and [block_actual_cdcn_norm]
    and the properties of the per-frame estimator.

    - Arithmetic.  The C code computes in [float] (and in [double] around
      [exp]).  The embedding is generic in an arithmetic structure [Arith]
      that supplies the operations the code uses; it has no laws, so every
      generic theorem holds whatever the rounding.  The instance [RArith]
      is exact real arithmetic; the properties that speak of sums, squares
      and signs are stated there.  The instance [SymArith] computes with
      terms, and shows the expressions the code evaluates.
    - Memory.  [float a[][NUM_COEFF+1]] is a list of rows, [float *] a list.
      Every access is checked against the declared shape; an access outside
      it stops the run with [Fault], which records the array and the indices
      that were used.
    - Control.  The [for] loops are iterated by [for_count], which also
      returns the value of the loop variable on exit, because the code reads
      [j] after its loops.
    - [cdcn.h] is not part of the sources: [NUM_COEFF] is a parameter and
      [CDCN_type] has the fields the code reads.

    The definitions come first: the embedding, the values a frame step
    computes, the formula of the specification, the data of the concrete
    runs.  The proofs follow. *)

From Stdlib Require Import List ZArith Bool Lia Reals Lra.
Import ListNotations.

(** ** Arithmetic *)

Class Arith (F : Type) : Type := {
  f0 : F;                       (* the literal 0.0 *)
  f2 : F;                       (* the literal 2 *)
  fadd : F -> F -> F;
  fsub : F -> F -> F;
  fmul : F -> F -> F;
  fdiv : F -> F -> F;
  fopp : F -> F;
  fexp : F -> F;
  fnonzero : F -> bool          (* the test [den != 0] *)
}.

(** Exact real arithmetic. *)
#[export] Instance RArith : Arith R := {|
  f0 := 0%R;
  f2 := 2%R;
  fadd := Rplus;
  fsub := Rminus;
  fmul := Rmult;
  fdiv := Rdiv;
  fopp := Ropp;
  fexp := exp;
  fnonzero := fun x => if Req_dec_T x 0 then false else true
|}.

(** ** Checked memory accesses *)

Inductive array_id : Set :=
  Az | Ax | Avariance | Aprob | Atilt | Ameans | Acorrbook.

Inductive access : Set :=
| At1 (a : array_id) (idx : nat)
| At2 (a : array_id) (row col : nat).

Inductive result (A : Type) : Type :=
| Ok (a : A)
| Fault (w : access).

Arguments Ok {A} a.
Arguments Fault {A} w.

Definition bind {A B : Type} (c : result A) (k : A -> result B) : result B :=
  match c with
  | Ok a => k a
  | Fault w => Fault w
  end.

Declare Scope result_scope.
Delimit Scope result_scope with result.
Notation "x <- c ;; k" := (bind c (fun x => k))
  (at level 61, c at next level, right associativity) : result_scope.
Notation "' p <- c ;; k" := (bind c (fun p => k))
  (at level 61, p pattern, c at next level, right associativity) : result_scope.
Open Scope result_scope.

Fixpoint set_nth {A : Type} (n : nat) (y : A) (l : list A) : list A :=
  match l, n with
  | [], _ => []
  | _ :: t, O => y :: t
  | h :: t, S n' => h :: set_nth n' y t
  end.

Definition rd1 {A : Type} (a : array_id) (v : list A) (n : nat) : result A :=
  match nth_error v n with
  | Some y => Ok y
  | None => Fault (At1 a n)
  end.

Definition rd2 {A : Type} (a : array_id) (m : list (list A)) (r c : nat)
  : result A :=
  match nth_error m r with
  | Some row =>
      match nth_error row c with
      | Some y => Ok y
      | None => Fault (At2 a r c)
      end
  | None => Fault (At2 a r c)
  end.

Definition wr1 {A : Type} (a : array_id) (v : list A) (n : nat) (y : A)
  : result (list A) :=
  if n <? length v then Ok (set_nth n y v) else Fault (At1 a n).

Definition wr2 {A : Type} (a : array_id) (m : list (list A)) (r c : nat)
  (y : A) : result (list (list A)) :=
  match nth_error m r with
  | Some row =>
      if c <? length row then Ok (set_nth r (set_nth c y row) m)
      else Fault (At2 a r c)
  | None => Fault (At2 a r c)
  end.

(** ** Symbolic arithmetic *)

(** Terms over the entries of the input arrays: running the code on them
    shows the expression it computes for each output.  The test [den != 0]
    is answered by an oracle. *)
Inductive sym : Set :=
| SIn (a : array_id) (row col : nat)
| SZero
| STwo
| SAdd (a b : sym)
| SSub (a b : sym)
| SMul (a b : sym)
| SDiv (a b : sym)
| SOpp (a : sym)
| SExp (a : sym).

Definition SymArith (nonzero : sym -> bool) : Arith sym := {|
  f0 := SZero;
  f2 := STwo;
  fadd := SAdd;
  fsub := SSub;
  fmul := SMul;
  fdiv := SDiv;
  fopp := SOpp;
  fexp := SExp;
  fnonzero := nonzero
|}.

(** The vector and the matrix of the entries of array [a]. *)
Definition sym_vec (a : array_id) (n : nat) : list sym :=
  map (SIn a 0) (seq 0 n).

Definition sym_mat (a : array_id) (m n : nat) : list (list sym) :=
  map (fun r => map (SIn a r) (seq 0 n)) (seq 0 m).

(** ** Loops *)

(** [for_count n lo body s] runs [body lo], [body (lo+1)], ... [n] times and
    returns the final state with the value of the loop variable on exit. *)
Fixpoint for_count {St : Type} (n : nat) (j : nat)
  (body : nat -> St -> result St) (s : St) : result (St * nat) :=
  match n with
  | O => Ok (s, j)
  | S n' =>
      match body j s with
      | Ok s' => for_count n' (S j) body s'
      | Fault w => Fault w
      end
  end.

(** ** The normaliser *)

Section Normalizer.

Context {F : Type} {AF : Arith F}.

(** [NUM_COEFF] of [cdcn.h]; vectors have [NUM_COEFF + 1] entries. *)
Variable NUM_COEFF : nat.

(** [for (j = lo; j <= NUM_COEFF; j++)] *)
Definition for_coeff {St : Type} (lo : nat) (body : nat -> St -> result St)
  (s : St) : result (St * nat) :=
  for_count (S NUM_COEFF - lo) lo body s.

(** [for (k = 1; k < num_codes; k++)], [num_codes] an [int]. *)
Definition for_codes {St : Type} (num_codes : Z)
  (body : nat -> St -> result St) (s : St) : result (St * nat) :=
  for_count (Z.to_nat (num_codes - 1)) 1 body s.

(** [fk = exp ((double) - distance / 2) * prob[k]] (lines 94 and 108). *)
Definition fk_of (distance p : F) : F :=
  fmul (fexp (fdiv (fopp distance) f2)) p.

Section Body.

Variables (variance : list (list F)) (prob tilt : list F)
          (means corrbook : list (list F)) (num_codes : Z).

(** Lines 84-85. *)
Definition init_x (x : list F) : result (list F * nat) :=
  for_coeff 0 (fun j x => wr1 Ax x j f0) x.

(** Lines 87-88 and 101-102: the term of dimension 0. *)
Definition distance_first (i k : nat) (z : list (list F)) : result F :=
  zi <- rd2 Az z i 0 ;;
  m <- rd2 Ameans means k 0 ;;
  c <- rd2 Acorrbook corrbook k 0 ;;
  t <- rd1 Atilt tilt 0 ;;
  let difference := fsub (fsub (fsub zi m) c) t in
  v <- rd2 Avariance variance k 0 ;;
  Ok (fdiv (fmul difference difference) v).

(** Lines 91-92: codeword 0, dimension [j >= 1]. *)
Definition distance_step0 (i : nat) (z : list (list F)) (j : nat)
  (distance : F) : result F :=
  zi <- rd2 Az z i j ;;
  t <- rd1 Atilt tilt j ;;
  m <- rd2 Ameans means 0 j ;;
  c <- rd2 Acorrbook corrbook 0 j ;;
  let difference := fsub (fsub (fsub zi t) m) c in
  v <- rd2 Avariance variance 0 j ;;
  Ok (fadd distance (fdiv (fmul difference difference) v)).

(** Lines 105-106: codeword [k >= 1], dimension [j >= 1]. *)
Definition distance_step (i k : nat) (z : list (list F)) (j : nat)
  (distance : F) : result F :=
  zi <- rd2 Az z i j ;;
  t <- rd1 Atilt tilt j ;;
  c <- rd2 Acorrbook corrbook k j ;;
  m <- rd2 Ameans means k j ;;
  let difference := fsub (fsub (fsub zi t) c) m in
  v <- rd2 Avariance variance k j ;;
  Ok (fadd distance (fdiv (fmul difference difference) v)).

(** Lines 87-93: the distance of frame [i] to codeword 0, and [j] on exit. *)
Definition distance0 (i : nat) (z : list (list F)) : result (F * nat) :=
  d <- distance_first i 0 z ;;
  for_coeff 1 (distance_step0 i z) d.

(** Lines 101-107: the distance of frame [i] to codeword [k]. *)
Definition distancek (i k : nat) (z : list (list F)) : result (F * nat) :=
  d <- distance_first i k z ;;
  for_coeff 1 (distance_step i k z) d.

(** Lines 87-94: the weight of codeword 0. *)
Definition weight0 (i : nat) (z : list (list F)) : result (F * nat) :=
  '(distance, j) <- distance0 i z ;;
  p <- rd1 Aprob prob 0 ;;
  Ok (fk_of distance p, j).

(** Lines 101-108: the weight of codeword [k]. *)
Definition weightk (i k : nat) (z : list (list F)) : result (F * nat) :=
  '(distance, j) <- distancek i k z ;;
  p <- rd1 Aprob prob k ;;
  Ok (fk_of distance p, j).

(** The distance and the weight as the code computes them for codeword [k]:
    codeword 0 is handled before the loop over the codewords, the others
    inside it. *)
Definition code_distance (i k : nat) (z : list (list F)) : result (F * nat) :=
  match k with
  | O => distance0 i z
  | S _ => distancek i k z
  end.

Definition code_weight (i k : nat) (z : list (list F)) : result (F * nat) :=
  match k with
  | O => weight0 i z
  | S _ => weightk i k z
  end.

(** Line 110. *)
Definition x_update (i k : nat) (z : list (list F)) (fk : F) (j : nat)
  (x : list F) : result (list F) :=
  xj <- rd1 Ax x j ;;
  zi <- rd2 Az z i j ;;
  t <- rd1 Atilt tilt j ;;
  c <- rd2 Acorrbook corrbook k j ;;
  wr1 Ax x j (fadd xj (fmul (fsub (fsub zi t) c) fk)).

(** Lines 100-111: the body of the loop over the codewords; the state is
    [(x, den, j)]. *)
Definition codeword_step (i : nat) (z : list (list F)) (k : nat)
  (s : list F * F * nat) : result (list F * F * nat) :=
  let '(x, den, _) := s in
  '(fk, _) <- weightk i k z ;;
  '(x, j) <- for_coeff 0 (x_update i k z fk) x ;;
  Ok (x, fadd den fk, j).

(** Lines 84-112: [x], [den] and [j] after the loop over the codewords. *)
Definition accumulate (i : nat) (z : list (list F)) (x : list F)
  : result (list F * F * nat) :=
  '(x, _) <- init_x x ;;
  '(fk, j) <- weight0 i z ;;
  let den := fk in
  '(s, _) <- for_codes num_codes (codeword_step i z) (x, den, j) ;;
  Ok s.

(** Lines 117-121. *)
Definition normalize (i : nat) (z : list (list F)) (x : list F) (den : F)
  (j : nat) : result (list (list F)) :=
  if fnonzero den then
    '(z, _) <- for_coeff 0
                 (fun j z => xj <- rd1 Ax x j ;; wr2 Az z i j (fdiv xj den))
                 z ;;
    Ok z
  else
    zij <- rd2 Az z i j ;;
    t <- rd1 Atilt tilt j ;;
    wr2 Az z i j (fsub zij t).

(** Lines 83-121: the body of the loop over the frames; the state is the
    frame array and the local buffer [x]. *)
Definition frame_step (i : nat) (s : list (list F) * list F)
  : result (list (list F) * list F) :=
  let '(z, x) := s in
  '(x, den, j) <- accumulate i z x ;;
  z <- normalize i z x den j ;;
  Ok (z, x).

End Body.

(** Lines 58-127.  [float x[NUM_COEFF+1]] has indeterminate contents in C;
    [init_x] overwrites every entry before any is read (lemma
    [init_x_ok]), so the buffer starts here as zeros. *)
Definition block_actual_cdcn_norm
  (variance : list (list F)) (prob tilt noise : list F)
  (means corrbook : list (list F)) (num_codes : Z)
  (z : list (list F)) (num_frames : Z) : result (list (list F)) :=
  '(s, _) <- for_count (Z.to_nat num_frames) 0
               (frame_step variance prob tilt means corrbook num_codes)
               (z, repeat f0 (S NUM_COEFF)) ;;
  Ok (fst s).

(** The fields of [CDCN_type] that the code reads.  [means], [variance] and
    [corrbook] have the shape in which [block_actual_cdcn_norm] declares
    them, rows of [NUM_COEFF + 1] entries.  [run_cdcn] and [firstcall] are
    integers used as truth values. *)
Record CDCN_type : Type := {
  means : list (list F);
  variance : list (list F);
  probs : list F;
  num_codes : Z;
  noise : list F;
  tilt : list F;
  corrbook : list (list F);
  firstcall : Z;
  run_cdcn : Z
}.

(** Lines 9-47. *)
Definition block_cdcn_norm (z : list (list F)) (num_frames : Z)
  (cdcn_variables : CDCN_type) : result (list (list F)) :=
  if (run_cdcn cdcn_variables =? 0)%Z then Ok z
  else if negb (firstcall cdcn_variables =? 0)%Z then Ok z
  else
    block_actual_cdcn_norm
      (variance cdcn_variables) (probs cdcn_variables)
      (tilt cdcn_variables) (noise cdcn_variables)
      (means cdcn_variables) (corrbook cdcn_variables)
      (num_codes cdcn_variables) z num_frames.

End Normalizer.

(** ** What a frame step computes *)

(** Total reads, used to name the values the code computes once the shapes
    are known to be right. *)
Definition at1 {F : Type} {AF : Arith F} (v : list F) (j : nat) : F :=
  nth j v f0.

Definition at2 {F : Type} {AF : Arith F} (m : list (list F)) (r c : nat) : F :=
  nth c (nth r m []) f0.

(** [m] has [n] rows of [d] entries. *)
Definition rows_ok {F : Type} (d n : nat) (m : list (list F)) : Prop :=
  length m = n /\ Forall (fun r => length r = d) m.

(** A pass over positions [lo .. lo+n-1] that rewrites each entry from its
    old value. *)
Definition pointwise {A : Type} (h : nat -> A -> A) (d : A) (l : list A)
  (j : nat) : list A :=
  set_nth j (h j (nth j l d)) l.

(** One write of line 119 into row [i] of the frame array. *)
Definition z_write {F : Type} {AF : Arith F} (i : nat) (x : list F) (den : F)
  (z' : list (list F)) (j : nat) : list (list F) :=
  set_nth i (pointwise (fun j _ => fdiv (at1 x j) den) f0 (nth i z' []) j) z'.

(** The offset of [z[i][j]] from the start of [z], in entries, for
    [float z[][NUM_COEFF+1]]. *)
Definition flat_offset (NUM_COEFF i j : nat) : nat := i * S NUM_COEFF + j.

Section Denotation.

Context {F : Type} {AF : Arith F}.
Variable NUM_COEFF : nat.

Variables (variance : list (list F)) (prob tilt : list F)
          (means corrbook : list (list F)) (num_codes : Z).

(** The shape the code relies on: [num_codes >= 1] codewords, every vector
    of [NUM_COEFF + 1] entries. *)
Record model_ok : Prop := {
  codes_ok : (1 <= num_codes)%Z;
  variance_ok : rows_ok (S NUM_COEFF) (Z.to_nat num_codes) variance;
  means_ok : rows_ok (S NUM_COEFF) (Z.to_nat num_codes) means;
  corrbook_ok : rows_ok (S NUM_COEFF) (Z.to_nat num_codes) corrbook;
  prob_ok : length prob = Z.to_nat num_codes;
  tilt_ok : length tilt = S NUM_COEFF
}.

(** The squared, variance-scaled difference in dimension 0 (lines 87-88 and
    101-102), in dimension [j >= 1] for codeword 0 (lines 91-92) and for
    codeword [k >= 1] (lines 105-106), with the operands in the order of the
    code. *)
Definition term_first (zi : list F) (k : nat) : F :=
  let difference :=
    fsub (fsub (fsub (at1 zi 0) (at2 means k 0)) (at2 corrbook k 0))
         (at1 tilt 0) in
  fdiv (fmul difference difference) (at2 variance k 0).

Definition term0 (zi : list F) (j : nat) : F :=
  let difference :=
    fsub (fsub (fsub (at1 zi j) (at1 tilt j)) (at2 means 0 j))
         (at2 corrbook 0 j) in
  fdiv (fmul difference difference) (at2 variance 0 j).

Definition termk (zi : list F) (k j : nat) : F :=
  let difference :=
    fsub (fsub (fsub (at1 zi j) (at1 tilt j)) (at2 corrbook k j))
         (at2 means k j) in
  fdiv (fmul difference difference) (at2 variance k j).

Definition dist (zi : list F) (k : nat) : F :=
  match k with
  | O => fold_left (fun d j => fadd d (term0 zi j)) (seq 1 NUM_COEFF)
           (term_first zi 0)
  | S _ => fold_left (fun d j => fadd d (termk zi k j)) (seq 1 NUM_COEFF)
             (term_first zi k)
  end.

(** The weight [fk] of codeword [k] for the frame [zi]. *)
Definition fk (zi : list F) (k : nat) : F :=
  fk_of (dist zi k) (at1 prob k).

(** What line 110 adds to [x[j]] for codeword [k]. *)
Definition contrib (zi : list F) (k j : nat) : F :=
  fmul (fsub (fsub (at1 zi j) (at1 tilt j)) (at2 corrbook k j)) (fk zi k).

(** The codewords the loop of line 98 visits: [1 .. num_codes - 1]. *)
Definition later_codes : list nat := seq 1 (Z.to_nat (num_codes - 1)).

(** [den] and [x] after the loop over the codewords: sums taken from left
    to right, [den] starting from [fk] of codeword 0 and [x[j]] from 0. *)
Definition den_val (zi : list F) : F :=
  fold_left fadd (map (fk zi) later_codes) (fk zi 0).

Definition x_val (zi : list F) (j : nat) : F :=
  fold_left fadd (map (fun k => contrib zi k j) later_codes) f0.

Definition x_vec (zi : list F) : list F :=
  map (x_val zi) (seq 0 (S NUM_COEFF)).

(** The frame written back when [den != 0]. *)
Definition clean (zi : list F) : list F :=
  map (fun xj => fdiv xj (den_val zi)) (x_vec zi).

(** One pass of line 110 over the buffer. *)
Definition x_pass (zi : list F) (k : nat) (x : list F) : list F :=
  map (fun j => fadd (at1 x j) (contrib zi k j)) (seq 0 (S NUM_COEFF)).

(** The state [(x, den, j)] after one codeword. *)
Definition acc_step (zi : list F) (s : list F * F * nat) (k : nat)
  : list F * F * nat :=
  let '(x, den, _) := s in (x_pass zi k x, fadd den (fk zi k), S NUM_COEFF).

(** The frame array has at least [num_frames] rows, each of
    [NUM_COEFF + 1] entries. *)
Definition frames_ok (z : list (list F)) (num_frames : Z) : Prop :=
  Z.to_nat num_frames <= length z /\
  Forall (fun r => length r = S NUM_COEFF) z.

(** What the loop over the frames leaves in place of the frames [rows], the
    first of them being frame [i]: every frame is replaced by [clean] as
    long as [den != 0]; the first frame with [den = 0] stops the run at the
    access of line 121. *)
Fixpoint frames_val (i : nat) (rows : list (list F))
  : result (list (list F)) :=
  match rows with
  | [] => Ok []
  | r :: t =>
      if fnonzero (den_val r)
      then l <- frames_val (S i) t ;; Ok (clean r :: l)
      else Fault (At2 Az i (S NUM_COEFF))
  end.

End Denotation.

Arguments codes_ok {F NUM_COEFF variance prob tilt means corrbook num_codes} _.
Arguments variance_ok {F NUM_COEFF variance prob tilt means corrbook
  num_codes} _.
Arguments means_ok {F NUM_COEFF variance prob tilt means corrbook num_codes} _.
Arguments corrbook_ok {F NUM_COEFF variance prob tilt means corrbook
  num_codes} _.
Arguments prob_ok {F NUM_COEFF variance prob tilt means corrbook num_codes} _.
Arguments tilt_ok {F NUM_COEFF variance prob tilt means corrbook num_codes} _.

(** A sum taken from left to right, starting from the first summand, as in
    [den = fk; ... den += fk;]. *)
Definition sum_from_first {F : Type} {AF : Arith F} (l : list F) : F :=
  match l with
  | [] => f0
  | a :: t => fold_left fadd t a
  end.

(** [cdcn_variables] with another noise vector. *)
Definition with_noise {F : Type} (c : CDCN_type) (nv : list F) : CDCN_type :=
  {| means := means c; variance := variance c; probs := probs c;
     num_codes := num_codes c; noise := nv; tilt := tilt c;
     corrbook := corrbook c; firstcall := firstcall c;
     run_cdcn := run_cdcn c |}.

(** The sum of two vectors, entry by entry. *)
Definition vadd (u v : list R) : list R :=
  map (fun p => (fst p + snd p)%R) (combine u v).

(** ** The specification's formula, in exact arithmetic *)

Section SpecWords.

Variable NUM_COEFF : nat.
Variables (variance : list (list R)) (tilt : list R)
          (means corrbook : list (list R)).

Local Open Scope R_scope.

(** The distance in the words of the specification: the sum over the
    dimensions [j = 0 .. NUM_COEFF] of
    [(z[j] - tilt[j] - mean[k][j] - correction[k][j])^2 / variance[k][j]]. *)
Definition spec_distance (zi : list R) (k : nat) : R :=
  sum_f_R0
    (fun j =>
       (at1 zi j - at1 tilt j - at2 means k j - at2 corrbook k j) ^ 2
       / at2 variance k j)
    NUM_COEFF.

End SpecWords.

(** ** Data for concrete runs, in exact arithmetic with [NUM_COEFF = 1] *)

Section Data.

Local Open Scope R_scope.

(** Two codewords of unit variance with equal priors, and two frames. *)
Definition ex_variance : list (list R) := [[1; 1]; [1; 1]].
Definition ex_means : list (list R) := [[0; 0]; [1; 1]].
Definition ex_corrbook : list (list R) := [[0; 0]; [0; 1]].
Definition ex_prob : list R := [1; 1].
Definition ex_tilt : list R := [1; 0].
Definition ex_noise : list R := [0; 0].
Definition ex_z : list (list R) := [[1; 2]; [3; 4]].

(** Two rows of zeros: the means and the corrections of two identical
    codewords. *)
Definition twin_rows : list (list R) := [[0; 0]; [0; 0]].

(** The first codeword alone. *)
Definition one_variance : list (list R) := [[1; 1]].
Definition one_means : list (list R) := [[0; 0]].
Definition one_corrbook : list (list R) := [[0; 0]].

(** A model that is switched off. *)
Definition ex_disabled : CDCN_type :=
  {| means := ex_means; variance := ex_variance; probs := ex_prob;
     num_codes := 2; noise := ex_noise; tilt := ex_tilt;
     corrbook := ex_corrbook; firstcall := 0; run_cdcn := 0 |}.

End Data.

(** * Proofs *)

(** ** Lists updated by index *)

Section ListFacts.

Context {A : Type}.

Lemma set_nth_length (n : nat) (y : A) (l : list A) :
  length (set_nth n y l) = length l.
Proof.
  revert n; induction l as [|h t IH]; intros [|n]; simpl; auto.
Qed.

Lemma nth_set_nth_eq (d : A) (n : nat) (y : A) (l : list A) :
  n < length l -> nth n (set_nth n y l) d = y.
Proof.
  revert n; induction l as [|h t IH]; intros [|n] Hn; simpl in *;
    try lia; auto.
  apply IH; lia.
Qed.

Lemma nth_set_nth_neq (d : A) (n m : nat) (y : A) (l : list A) :
  n <> m -> nth m (set_nth n y l) d = nth m l d.
Proof.
  revert n m; induction l as [|h t IH]; intros [|n] [|m] Hnm; simpl;
    try reflexivity; try congruence.
  apply IH; congruence.
Qed.

Lemma nth_error_set_nth_eq (n : nat) (y : A) (l : list A) :
  n < length l -> nth_error (set_nth n y l) n = Some y.
Proof.
  revert n; induction l as [|h t IH]; intros [|n] Hn; simpl in *;
    try lia; auto.
  apply IH; lia.
Qed.

Lemma nth_error_set_nth_neq (n m : nat) (y : A) (l : list A) :
  n <> m -> nth_error (set_nth n y l) m = nth_error l m.
Proof.
  revert n m; induction l as [|h t IH]; intros [|n] [|m] Hnm; simpl;
    try reflexivity; try congruence.
  apply IH; congruence.
Qed.

Lemma set_nth_set_nth (n : nat) (y y' : A) (l : list A) :
  set_nth n y' (set_nth n y l) = set_nth n y' l.
Proof.
  revert n; induction l as [|h t IH]; intros [|n]; simpl; auto.
  now rewrite IH.
Qed.

Lemma nth_error_nth_length (d : A) (l : list A) (n : nat) :
  n < length l -> nth_error l n = Some (nth n l d).
Proof.
  revert n; induction l as [|h t IH]; intros [|n] Hn; simpl in *;
    try lia; auto.
  apply IH; lia.
Qed.

Lemma pointwise_pass_length (h : nat -> A -> A) (d : A) (n lo : nat)
  (l : list A) :
  length (fold_left (pointwise h d) (seq lo n) l) = length l.
Proof.
  revert lo l; induction n as [|n IH]; intros lo l; simpl; auto.
  rewrite IH. apply set_nth_length.
Qed.

Lemma pointwise_pass_nth (h : nat -> A -> A) (d : A) (n lo : nat)
  (l : list A) (j : nat) :
  lo + n <= length l ->
  nth j (fold_left (pointwise h d) (seq lo n) l) d =
  if (lo <=? j) && (j <? lo + n) then h j (nth j l d) else nth j l d.
Proof.
  revert lo l; induction n as [|n IH]; intros lo l Hlen; simpl.
  - destruct (lo <=? j) eqn:E1; simpl; auto.
    destruct (j <? lo + 0) eqn:E2; auto.
    apply Nat.leb_le in E1. apply Nat.ltb_lt in E2. lia.
  - rewrite IH by (unfold pointwise; rewrite set_nth_length; lia).
    unfold pointwise.
    destruct (Nat.eq_dec lo j) as [->|Hne].
    + rewrite nth_set_nth_eq by lia.
      replace (S j <=? j) with false by (symmetry; apply Nat.leb_gt; lia).
      replace (j <=? j) with true by (symmetry; apply Nat.leb_le; lia).
      replace (j <? j + S n) with true by (symmetry; apply Nat.ltb_lt; lia).
      reflexivity.
    + rewrite nth_set_nth_neq by assumption.
      destruct (S lo <=? j) eqn:E1; destruct (lo <=? j) eqn:E2;
        destruct (j <? S lo + n) eqn:E3; destruct (j <? lo + S n) eqn:E4;
        simpl; try reflexivity; exfalso;
        repeat match goal with
          | H : (_ <=? _) = true |- _ => apply Nat.leb_le in H
          | H : (_ <=? _) = false |- _ => apply Nat.leb_gt in H
          | H : (_ <? _) = true |- _ => apply Nat.ltb_lt in H
          | H : (_ <? _) = false |- _ => apply Nat.ltb_ge in H
          end; lia.
Qed.

Lemma pointwise_pass_all (h : nat -> A -> A) (d : A) (l : list A) :
  fold_left (pointwise h d) (seq 0 (length l)) l =
  map (fun j => h j (nth j l d)) (seq 0 (length l)).
Proof.
  apply nth_ext with (d := d) (d' := d).
  - now rewrite pointwise_pass_length, length_map, length_seq.
  - intros j Hj. rewrite pointwise_pass_length in Hj.
    rewrite pointwise_pass_nth by lia.
    replace (0 <=? j) with true by (symmetry; apply Nat.leb_le; lia).
    replace (j <? 0 + length l) with true
      by (symmetry; apply Nat.ltb_lt; lia).
    simpl.
    rewrite (nth_indep (map _ _) d (h 0 (nth 0 l d)))
      by (rewrite length_map, length_seq; exact Hj).
    rewrite (map_nth (fun j => h j (nth j l d))).
    now rewrite seq_nth.
Qed.

Lemma map_const_seq (c : A) (n lo : nat) :
  map (fun _ => c) (seq lo n) = repeat c n.
Proof.
  revert lo; induction n as [|n IH]; intros lo; simpl;
    [reflexivity | now rewrite IH].
Qed.

Lemma set_nth_same (d : A) (n : nat) (l : list A) :
  set_nth n (nth n l d) l = l.
Proof.
  revert n; induction l as [|h t IH]; intros [|n]; simpl; auto.
  now rewrite IH.
Qed.

Lemma map_nth_all {B : Type} (f : A -> B) (d : A) (l : list A) :
  map (fun j => f (nth j l d)) (seq 0 (length l)) = map f l.
Proof.
  induction l as [|h t IH]; [reflexivity|].
  cbn [length seq map nth]. f_equal.
  rewrite <- seq_shift, map_map. exact IH.
Qed.

Lemma set_nth_app (l1 l2 : list A) (y y' : A) :
  set_nth (length l1) y' (l1 ++ y :: l2) = l1 ++ y' :: l2.
Proof.
  induction l1 as [|h t IH]; simpl; [reflexivity | now rewrite IH].
Qed.

End ListFacts.

(** ** Loops that cannot fault *)

Lemma for_count_fold {St : Type} (P : St -> Prop)
  (body : nat -> St -> result St) (g : St -> nat -> St) :
  forall (n lo : nat) (s : St),
    (forall j s, lo <= j < lo + n -> P s ->
                 body j s = Ok (g s j) /\ P (g s j)) ->
    P s ->
    for_count n lo body s = Ok (fold_left g (seq lo n) s, lo + n) /\
    P (fold_left g (seq lo n) s).
Proof.
  induction n as [|n IH]; intros lo s Hbody Hs; simpl.
  - rewrite Nat.add_0_r. auto.
  - destruct (Hbody lo s) as [-> HP]; [lia | assumption |].
    replace (lo + S n) with (S lo + n) by lia.
    apply IH; auto.
    intros j s' Hj Hs'. apply Hbody; [lia | assumption].
Qed.

Lemma for_count_fault {St : Type} (body : nat -> St -> result St)
  (w : access) :
  forall (n lo : nat) (s : St),
    0 < n -> body lo s = Fault w -> for_count n lo body s = Fault w.
Proof.
  intros [|n] lo s Hn Hb; [lia|]. simpl. now rewrite Hb.
Qed.

(** ** What a frame step computes: proofs *)

Section Facts.

Context {F : Type} {AF : Arith F}.
Variable NUM_COEFF : nat.

Variables (variance : list (list F)) (prob tilt : list F)
          (means corrbook : list (list F)) (num_codes : Z).

(** The definitions of the previous part at the model of this section. *)
Local Abbreviation shape :=
  (model_ok NUM_COEFF variance prob tilt means corrbook num_codes).
Local Abbreviation term_first_code :=
  (term_first variance tilt means corrbook).
Local Abbreviation term0_code := (term0 variance tilt means corrbook).
Local Abbreviation termk_code := (termk variance tilt means corrbook).
Local Abbreviation dist_code := (dist NUM_COEFF variance tilt means corrbook).
Local Abbreviation fk_code := (fk NUM_COEFF variance prob tilt means corrbook).
Local Abbreviation contrib_code :=
  (contrib NUM_COEFF variance prob tilt means corrbook).
Local Abbreviation den_code :=
  (den_val NUM_COEFF variance prob tilt means corrbook num_codes).
Local Abbreviation x_val_code :=
  (x_val NUM_COEFF variance prob tilt means corrbook num_codes).
Local Abbreviation x_vec_code :=
  (x_vec NUM_COEFF variance prob tilt means corrbook num_codes).
Local Abbreviation clean_code :=
  (clean NUM_COEFF variance prob tilt means corrbook num_codes).
Local Abbreviation frames_val_code :=
  (frames_val NUM_COEFF variance prob tilt means corrbook num_codes).

(** *** Reads that succeed *)

Lemma rd1_at1 (a : array_id) (v : list F) (j : nat) :
  j < length v -> rd1 a v j = Ok (at1 v j).
Proof.
  intros Hj. unfold rd1, at1.
  now rewrite (nth_error_nth_length f0) by assumption.
Qed.

Lemma rd2_at2 (a : array_id) (d n : nat) (m : list (list F)) (r c : nat) :
  rows_ok d n m -> r < n -> c < d -> rd2 a m r c = Ok (at2 m r c).
Proof.
  intros [Hlen Hrows] Hr Hc. unfold rd2, at2.
  rewrite (nth_error_nth_length []) by lia.
  assert (Hrow : length (nth r m []) = d).
  { rewrite Forall_forall in Hrows. apply Hrows, nth_In. lia. }
  now rewrite (nth_error_nth_length f0) by lia.
Qed.

Lemma rd2_row (a : array_id) (z : list (list F)) (i : nat) (zi : list F)
  (c : nat) :
  nth_error z i = Some zi -> c < length zi -> rd2 a z i c = Ok (at1 zi c).
Proof.
  intros Hi Hc. unfold rd2, at1. rewrite Hi.
  now rewrite (nth_error_nth_length f0) by assumption.
Qed.

Lemma rd2_row_out (a : array_id) (z : list (list F)) (i : nat)
  (zi : list F) (c : nat) :
  nth_error z i = Some zi -> length zi <= c ->
  rd2 a z i c = Fault (At2 a i c).
Proof.
  intros Hi Hc. unfold rd2. rewrite Hi.
  apply nth_error_None in Hc. now rewrite Hc.
Qed.

(** *** Lines 84-85 *)

Lemma init_x_ok (x : list F) :
  length x = S NUM_COEFF ->
  init_x NUM_COEFF x = Ok (repeat f0 (S NUM_COEFF), S NUM_COEFF).
Proof.
  intros Hx. unfold init_x, for_coeff. rewrite Nat.sub_0_r.
  destruct (for_count_fold (fun x => length x = S NUM_COEFF)
              (fun j x => wr1 Ax x j f0)
              (pointwise (fun _ _ => f0) f0) (S NUM_COEFF) 0 x)
    as [-> _]; auto.
  - intros j s Hj Hs. unfold wr1, pointwise.
    replace (j <? length s) with true by (symmetry; apply Nat.ltb_lt; lia).
    split; [reflexivity | now rewrite set_nth_length].
  - rewrite <- Hx at 1. rewrite pointwise_pass_all, Hx.
    now rewrite map_const_seq.
Qed.

(** *** The distance and the weight *)

Section Frame.

Hypothesis Hmodel : shape.

Variables (z : list (list F)) (i : nat) (zi : list F).
Hypothesis Hrow : nth_error z i = Some zi.
Hypothesis Hlen : length zi = S NUM_COEFF.

Local Abbreviation x_pass_code :=
  (x_pass NUM_COEFF variance prob tilt means corrbook zi).
Local Abbreviation acc_step_code :=
  (acc_step NUM_COEFF variance prob tilt means corrbook zi).

Ltac reads :=
  repeat first
    [ rewrite (rd2_row _ _ _ _ _ Hrow) by lia
    | rewrite (rd1_at1 _ tilt) by (rewrite (tilt_ok Hmodel); lia)
    | rewrite (rd1_at1 _ prob) by (rewrite (prob_ok Hmodel); lia)
    | rewrite (rd2_at2 _ _ _ _ _ _ (means_ok Hmodel)) by lia
    | rewrite (rd2_at2 _ _ _ _ _ _ (corrbook_ok Hmodel)) by lia
    | rewrite (rd2_at2 _ _ _ _ _ _ (variance_ok Hmodel)) by lia ];
  cbn [bind].

Lemma distance_first_ok (k : nat) :
  k < Z.to_nat num_codes ->
  distance_first variance tilt means corrbook i k z =
  Ok (term_first_code zi k).
Proof.
  intros Hk. unfold distance_first. reads. reflexivity.
Qed.

Lemma code_distance_ok (k : nat) :
  k < Z.to_nat num_codes ->
  code_distance NUM_COEFF variance tilt means corrbook i k z =
  Ok (dist_code zi k, S NUM_COEFF).
Proof.
  intros Hk. pose proof (codes_ok Hmodel) as Hc.
  destruct k as [|k]; cbn [code_distance dist];
    unfold distance0, distancek; rewrite distance_first_ok by lia;
    cbn [bind]; unfold for_coeff;
    replace (S NUM_COEFF - 1) with NUM_COEFF by lia.
  - destruct (for_count_fold (fun _ => True)
                (distance_step0 variance tilt means corrbook i z)
                (fun d j => fadd d (term0_code zi j)) NUM_COEFF 1
                (term_first_code zi 0)) as [-> _]; auto.
    intros j s Hj _. split; auto.
    unfold distance_step0. reads. reflexivity.
  - destruct (for_count_fold (fun _ => True)
                (distance_step variance tilt means corrbook i (S k) z)
                (fun d j => fadd d (termk_code zi (S k) j)) NUM_COEFF 1
                (term_first_code zi (S k))) as [-> _]; auto.
    intros j s Hj _. split; auto.
    unfold distance_step. reads. reflexivity.
Qed.

Lemma code_weight_ok (k : nat) :
  k < Z.to_nat num_codes ->
  code_weight NUM_COEFF variance prob tilt means corrbook i k z =
  Ok (fk_code zi k, S NUM_COEFF).
Proof.
  intros Hk. pose proof (code_distance_ok k Hk) as Hd.
  destruct k as [|k]; cbn [code_weight code_distance] in *;
    unfold weight0, weightk; rewrite Hd; cbn [bind]; reads; reflexivity.
Qed.

(** *** The accumulation of [x] and [den] *)

Lemma x_pass_length (k : nat) (x : list F) :
  length (x_pass_code k x) = S NUM_COEFF.
Proof. unfold x_pass. now rewrite length_map, length_seq. Qed.

Lemma x_pass_at (k : nat) (x : list F) (j : nat) :
  j < S NUM_COEFF ->
  at1 (x_pass_code k x) j = fadd (at1 x j) (contrib_code zi k j).
Proof.
  intros Hj. unfold at1 at 1, x_pass.
  rewrite (nth_indep _ f0 (fadd (at1 x 0) (contrib_code zi k 0)))
    by (rewrite length_map, length_seq; exact Hj).
  rewrite (map_nth (fun j => fadd (at1 x j) (contrib_code zi k j))).
  now rewrite seq_nth.
Qed.

Lemma x_update_ok (k : nat) (x : list F) :
  0 < k < Z.to_nat num_codes ->
  length x = S NUM_COEFF ->
  for_coeff NUM_COEFF 0 (x_update tilt corrbook i k z (fk_code zi k)) x =
  Ok (x_pass_code k x, S NUM_COEFF).
Proof.
  intros Hk Hx. unfold for_coeff. rewrite Nat.sub_0_r.
  destruct (for_count_fold (fun x => length x = S NUM_COEFF)
              (x_update tilt corrbook i k z (fk_code zi k))
              (pointwise (fun j xj => fadd xj (contrib_code zi k j)) f0)
              (S NUM_COEFF) 0 x)
    as [-> _]; auto.
  - intros j s Hj Hs. unfold x_update.
    rewrite (rd1_at1 _ s) by lia. cbn [bind]. reads.
    unfold wr1, pointwise.
    replace (j <? length s) with true by (symmetry; apply Nat.ltb_lt; lia).
    split; [reflexivity | now rewrite set_nth_length].
  - rewrite <- Hx at 1. rewrite pointwise_pass_all, Hx. reflexivity.
Qed.

Lemma codeword_step_ok (k : nat) (s : list F * F * nat) :
  0 < k < Z.to_nat num_codes ->
  length (fst (fst s)) = S NUM_COEFF ->
  codeword_step NUM_COEFF variance prob tilt means corrbook i z k s =
  Ok (acc_step_code s k).
Proof.
  intros Hk Hx. destruct s as [[x den] j]. cbn [fst] in Hx.
  unfold codeword_step.
  pose proof (code_weight_ok k (proj2 Hk)) as Hw.
  destruct k as [|k]; [lia|]. cbn [code_weight] in Hw. rewrite Hw.
  cbn [bind]. rewrite x_update_ok by (auto; lia). reflexivity.
Qed.

Lemma acc_fold (ks : list nat) :
  forall (x : list F) (den : F) (j : nat),
    length x = S NUM_COEFF ->
    fold_left acc_step_code ks (x, den, j) =
    (match ks with
     | [] => x
     | _ => map (fun j =>
                   fold_left fadd (map (fun k => contrib_code zi k j) ks)
                     (at1 x j)) (seq 0 (S NUM_COEFF))
     end,
     fold_left fadd (map (fk_code zi) ks) den,
     match ks with [] => j | _ => S NUM_COEFF end).
Proof.
  induction ks as [|k ks IH]; intros x den j Hx; [reflexivity|].
  cbn [fold_left acc_step map].
  rewrite IH by apply x_pass_length.
  destruct ks as [|k' ks].
  - reflexivity.
  - f_equal. f_equal. apply map_ext_in. intros a Ha.
    apply in_seq in Ha. cbn [map fold_left].
    rewrite x_pass_at by lia. reflexivity.
Qed.

Lemma accumulate_ok (x : list F) :
  length x = S NUM_COEFF ->
  accumulate NUM_COEFF variance prob tilt means corrbook num_codes i z x =
  Ok (x_vec_code zi, den_code zi, S NUM_COEFF).
Proof.
  intros Hx. pose proof (codes_ok Hmodel) as Hc.
  unfold accumulate. rewrite init_x_ok by assumption. cbn [bind].
  pose proof (code_weight_ok 0 ltac:(lia)) as Hw.
  cbn [code_weight] in Hw. rewrite Hw. cbn [bind]. unfold for_codes.
  destruct (for_count_fold (fun s => length (fst (fst s)) = S NUM_COEFF)
              (codeword_step NUM_COEFF variance prob tilt means corrbook i z)
              acc_step_code (Z.to_nat (num_codes - 1)) 1
              (repeat f0 (S NUM_COEFF), fk_code zi 0, S NUM_COEFF))
    as [-> _].
  - intros k s Hk Hs. rewrite codeword_step_ok by (auto; lia).
    split; [reflexivity|]. destruct s as [[x' den'] j'].
    cbn [acc_step fst]. apply x_pass_length.
  - cbn [fst]. apply repeat_length.
  - cbn [bind]. rewrite acc_fold by apply repeat_length.
    unfold x_vec, x_val, den_val, later_codes.
    destruct (seq 1 (Z.to_nat (num_codes - 1))) as [|k ks] eqn:E.
    + cbn [map fold_left]. now rewrite map_const_seq.
    + do 3 f_equal. apply map_ext_in. intros a Ha. apply in_seq in Ha.
      unfold at1. now rewrite nth_repeat.
Qed.

(** *** Lines 117-121 *)

Lemma z_write_fold (x : list F) (den : F) (n : nat) :
  forall (lo : nat) (z' : list (list F)),
    i < length z' ->
    fold_left (z_write i x den) (seq lo n) z' =
    set_nth i
      (fold_left (pointwise (fun j _ => fdiv (at1 x j) den) f0) (seq lo n)
         (nth i z' [])) z'.
Proof.
  induction n as [|n IH]; intros lo z' Hi; cbn [seq fold_left].
  - now rewrite set_nth_same.
  - rewrite IH by (unfold z_write; now rewrite set_nth_length).
    unfold z_write.
    rewrite nth_set_nth_eq by assumption.
    now rewrite set_nth_set_nth.
Qed.

Lemma normalize_nonzero (x : list F) (den : F) (j : nat) :
  length x = S NUM_COEFF ->
  fnonzero den = true ->
  normalize NUM_COEFF tilt i z x den j =
  Ok (set_nth i (map (fun xj => fdiv xj den) x) z).
Proof.
  intros Hx Hden. unfold normalize. rewrite Hden.
  assert (Hi : i < length z) by (apply nth_error_Some; congruence).
  unfold for_coeff. rewrite Nat.sub_0_r.
  destruct (for_count_fold
              (fun z' => length z' = length z /\
                         length (nth i z' []) = S NUM_COEFF)
              (fun j z' => xj <- rd1 Ax x j ;; wr2 Az z' i j (fdiv xj den))
              (z_write i x den) (S NUM_COEFF) 0 z)
    as [-> _].
  - intros c z' Hc [Hlz Hlr].
    rewrite rd1_at1 by lia. cbn [bind]. unfold wr2.
    rewrite (nth_error_nth_length []) by lia.
    replace (c <? length (nth i z' [])) with true
      by (symmetry; apply Nat.ltb_lt; lia).
    unfold z_write, pointwise. split; [reflexivity|].
    rewrite set_nth_length. split; [assumption|].
    rewrite nth_set_nth_eq by lia. now rewrite set_nth_length.
  - split; [reflexivity|].
    rewrite (nth_error_nth z i [] Hrow). assumption.
  - cbn [bind]. rewrite z_write_fold by assumption.
    rewrite (nth_error_nth z i [] Hrow).
    rewrite <- Hlen at 1. rewrite pointwise_pass_all, Hlen.
    do 2 f_equal. unfold at1. rewrite <- Hx.
    apply (map_nth_all (fun xj => fdiv xj den)).
Qed.

Lemma normalize_zero (x : list F) (den : F) :
  fnonzero den = false ->
  normalize NUM_COEFF tilt i z x den (S NUM_COEFF) =
  Fault (At2 Az i (S NUM_COEFF)).
Proof.
  intros Hden. unfold normalize. rewrite Hden.
  now rewrite (rd2_row_out _ _ _ _ _ Hrow) by lia.
Qed.

(** The whole frame step: the frame is replaced by [clean zi] when
    [den != 0]; otherwise the step stops at the read of [z[i][j]] with
    [j = NUM_COEFF + 1]. *)
Lemma frame_step_ok (x : list F) :
  length x = S NUM_COEFF ->
  frame_step NUM_COEFF variance prob tilt means corrbook num_codes i (z, x) =
  if fnonzero (den_code zi)
  then Ok (set_nth i (clean_code zi) z, x_vec_code zi)
  else Fault (At2 Az i (S NUM_COEFF)).
Proof.
  intros Hx. unfold frame_step. rewrite accumulate_ok by assumption.
  cbn [bind]. destruct (fnonzero (den_code zi)) eqn:Hden.
  - rewrite normalize_nonzero; auto.
    unfold x_vec. now rewrite length_map, length_seq.
  - now rewrite normalize_zero.
Qed.

End Frame.

(** *** The loop over the frames *)

Hypothesis Hmodel : shape.

Lemma frames_loop_ok (todo : list (list F)) :
  forall (done rest : list (list F)) (x : list F),
    Forall (fun r => length r = S NUM_COEFF) todo ->
    Forall (fun r => fnonzero (den_code r) = true) todo ->
    length x = S NUM_COEFF ->
    exists x',
      for_count (length todo) (length done)
        (frame_step NUM_COEFF variance prob tilt means corrbook num_codes)
        (done ++ todo ++ rest, x) =
      Ok (done ++ map clean_code todo ++ rest, x', length done + length todo).
Proof.
  induction todo as [|r t IH]; intros done rest x Hrows Hden Hx.
  - exists x. cbn [length for_count map app]. now rewrite Nat.add_0_r.
  - inversion Hrows as [|? ? Hr Hrows']; subst.
    inversion Hden as [|? ? Hd Hden']; subst.
    cbn [length for_count].
    rewrite (frame_step_ok Hmodel (done ++ (r :: t) ++ rest)
               (length done) r); auto.
    2:{ rewrite nth_error_app2 by lia. now rewrite Nat.sub_diag. }
    rewrite Hd. cbn [app]. rewrite set_nth_app.
    destruct (IH (done ++ [clean_code r]) rest (x_vec_code r)) as [x' Hx'];
      auto.
    { unfold x_vec. now rewrite length_map, length_seq. }
    exists x'. rewrite length_app, <- !app_assoc in Hx'.
    cbn [length app] in Hx'.
    replace (S (length done)) with (length done + 1) by lia.
    rewrite Hx'. do 2 f_equal. cbn [map app]. lia.
Qed.

Lemma frames_loop_fault (good : list (list F)) :
  forall (done more : list (list F)) (bad x : list F),
    Forall (fun r => length r = S NUM_COEFF) (good ++ [bad]) ->
    Forall (fun r => fnonzero (den_code r) = true) good ->
    fnonzero (den_code bad) = false ->
    length x = S NUM_COEFF ->
    forall n, length good < n ->
    for_count n (length done)
      (frame_step NUM_COEFF variance prob tilt means corrbook num_codes)
      (done ++ good ++ bad :: more, x) =
    Fault (At2 Az (length done + length good) (S NUM_COEFF)).
Proof.
  induction good as [|r t IH]; intros done more bad x Hrows Hden Hbad Hx n Hn.
  - destruct n as [|n]; [cbn [length] in Hn; lia|]. cbn [for_count app].
    inversion Hrows as [|? ? Hr _]; subst.
    rewrite (frame_step_ok Hmodel (done ++ bad :: more)
               (length done) bad); auto.
    2:{ rewrite nth_error_app2 by lia. now rewrite Nat.sub_diag. }
    rewrite Hbad. cbn [length]. now rewrite Nat.add_0_r.
  - destruct n as [|n]; [lia|]. cbn [length] in Hn. cbn [for_count].
    inversion Hrows as [|? ? Hr Hrows']; subst.
    inversion Hden as [|? ? Hd Hden']; subst.
    rewrite (frame_step_ok Hmodel (done ++ (r :: t) ++ bad :: more)
               (length done) r); auto.
    2:{ rewrite nth_error_app2 by lia. now rewrite Nat.sub_diag. }
    rewrite Hd. cbn [app]. rewrite set_nth_app.
    specialize (IH (done ++ [clean_code r]) more bad (x_vec_code r) Hrows'
                  Hden' Hbad).
    rewrite length_app, <- !app_assoc in IH. cbn [length app] in IH.
    replace (S (length done)) with (length done + 1) by lia.
    rewrite IH; [f_equal; f_equal; cbn [length]; lia | | lia].
    unfold x_vec. now rewrite length_map, length_seq.
Qed.

(** The whole utterance, when no frame has [den = 0]. *)
Lemma block_actual_ok (noise : list F) (z : list (list F)) (num_frames : Z) :
  frames_ok NUM_COEFF z num_frames ->
  Forall (fun r => fnonzero (den_code r) = true)
    (firstn (Z.to_nat num_frames) z) ->
  block_actual_cdcn_norm NUM_COEFF variance prob tilt noise means corrbook
    num_codes z num_frames =
  Ok (map clean_code (firstn (Z.to_nat num_frames) z) ++
      skipn (Z.to_nat num_frames) z).
Proof.
  intros [Hn Hrows] Hden. unfold block_actual_cdcn_norm.
  set (n := Z.to_nat num_frames) in *.
  destruct (frames_loop_ok (firstn n z) [] (skipn n z)
              (repeat f0 (S NUM_COEFF))) as [x' Hx']; auto.
  - rewrite <- (firstn_skipn n z) in Hrows.
    now apply Forall_app in Hrows.
  - apply repeat_length.
  - rewrite length_firstn, Nat.min_l in Hx' by assumption.
    cbn [app length] in Hx'. rewrite firstn_skipn in Hx'.
    rewrite Hx'. reflexivity.
Qed.

(** The whole utterance, whatever the frames. *)
Lemma frames_loop_val (todo : list (list F)) :
  forall (done rest : list (list F)) (x : list F),
    Forall (fun r => length r = S NUM_COEFF) todo ->
    length x = S NUM_COEFF ->
    match
      for_count (length todo) (length done)
        (frame_step NUM_COEFF variance prob tilt means corrbook num_codes)
        (done ++ todo ++ rest, x)
    with
    | Ok (s, _) => Ok (fst s)
    | Fault w => Fault w
    end =
    match frames_val_code (length done) todo with
    | Ok l => Ok (done ++ l ++ rest)
    | Fault w => Fault w
    end.
Proof.
  induction todo as [|r t IH]; intros done rest x Hrows Hx.
  - reflexivity.
  - inversion Hrows as [|? ? Hr Hrows']; subst.
    cbn [length for_count frames_val].
    rewrite (frame_step_ok Hmodel (done ++ (r :: t) ++ rest)
               (length done) r); auto.
    2:{ rewrite nth_error_app2 by lia. now rewrite Nat.sub_diag. }
    destruct (fnonzero (den_code r)); [|reflexivity].
    cbn [app]. rewrite set_nth_app.
    specialize (IH (done ++ [clean_code r]) rest (x_vec_code r) Hrows').
    rewrite length_app, <- !app_assoc in IH. cbn [length app] in IH.
    replace (length done + 1) with (S (length done)) in IH by lia.
    rewrite IH by (unfold x_vec; now rewrite length_map, length_seq).
    destruct (frames_val_code (S (length done)) t); cbn [bind];
      rewrite <- ?app_assoc; reflexivity.
Qed.

Lemma block_actual_val (noise : list F) (z : list (list F)) (num_frames : Z) :
  frames_ok NUM_COEFF z num_frames ->
  block_actual_cdcn_norm NUM_COEFF variance prob tilt noise means corrbook
    num_codes z num_frames =
  match frames_val_code 0 (firstn (Z.to_nat num_frames) z) with
  | Ok l => Ok (l ++ skipn (Z.to_nat num_frames) z)
  | Fault w => Fault w
  end.
Proof.
  intros [Hn Hrows]. unfold block_actual_cdcn_norm.
  set (n := Z.to_nat num_frames) in *.
  pose proof (frames_loop_val (firstn n z) [] (skipn n z)
                (repeat f0 (S NUM_COEFF))) as H.
  rewrite length_firstn, Nat.min_l in H by assumption.
  cbn [app length] in H. rewrite firstn_skipn in H.
  rewrite <- H.
  - destruct (for_count n 0 _ _) as [[s j]|w]; reflexivity.
  - rewrite <- (firstn_skipn n z) in Hrows. now apply Forall_app in Hrows.
  - apply repeat_length.
Qed.

End Facts.

Arguments code_distance_ok {F AF NUM_COEFF variance prob tilt means corrbook
  num_codes} Hmodel z i zi Hrow Hlen k _.
Arguments code_weight_ok {F AF NUM_COEFF variance prob tilt means corrbook
  num_codes} Hmodel z i zi Hrow Hlen k _.
Arguments accumulate_ok {F AF NUM_COEFF variance prob tilt means corrbook
  num_codes} Hmodel z i zi Hrow Hlen x _.
Arguments frame_step_ok {F AF NUM_COEFF variance prob tilt means corrbook
  num_codes} Hmodel z i zi Hrow Hlen x _.
Arguments block_actual_ok {F AF NUM_COEFF variance prob tilt means corrbook
  num_codes} Hmodel noise z num_frames _ _.
Arguments block_actual_val {F AF NUM_COEFF variance prob tilt means corrbook
  num_codes} Hmodel noise z num_frames _.

(** ** Properties that hold in every arithmetic *)

Section Generic.

Context {F : Type} {AF : Arith F}.
Variable NUM_COEFF : nat.

Variables (variance : list (list F)) (prob tilt : list F)
          (means corrbook : list (list F)) (num_codes : Z).

(** C1.  For a frame of a well-shaped utterance and model
    ([num_codes >= 1]), the loop over the codewords ends with [den] equal to
    the sum of the weights [fk] of all the codewords [0 .. num_codes-1],
    and with every [x[j]] equal to the sum, started from 0, of
    [(z[j] - tilt[j] - corrbook[k][j]) * fk_k] over the codewords
    [1 .. num_codes-1] only: the weight of codeword 0 is computed and
    enters [den], but no term of codeword 0 enters [x]. *)
Theorem accumulate_den_all_codes_x_later_codes
  (z : list (list F)) (i : nat) (zi x : list F) :
  model_ok NUM_COEFF variance prob tilt means corrbook num_codes ->
  nth_error z i = Some zi ->
  length zi = S NUM_COEFF ->
  length x = S NUM_COEFF ->
  exists (w : nat -> F) (xs : list F) (den : F) (j : nat),
    (forall k, k < Z.to_nat num_codes ->
       code_weight NUM_COEFF variance prob tilt means corrbook i k z =
       Ok (w k, S NUM_COEFF)) /\
    accumulate NUM_COEFF variance prob tilt means corrbook num_codes i z x =
    Ok (xs, den, j) /\
    den = sum_from_first (map w (seq 0 (Z.to_nat num_codes))) /\
    forall c, c <= NUM_COEFF ->
      nth_error xs c =
      Some (fold_left fadd
              (map (fun k =>
                      fmul (fsub (fsub (at1 zi c) (at1 tilt c))
                              (at2 corrbook k c)) (w k))
                 (seq 1 (Z.to_nat num_codes - 1)))
              f0).
Proof.
  intros Hm Hrow Hlen Hx.
  exists (fk NUM_COEFF variance prob tilt means corrbook zi),
    (x_vec NUM_COEFF variance prob tilt means corrbook num_codes zi),
    (den_val NUM_COEFF variance prob tilt means corrbook num_codes zi),
    (S NUM_COEFF).
  assert (Hc : (1 <= num_codes)%Z) by now destruct Hm.
  assert (En : Z.to_nat (num_codes - 1) = Z.to_nat num_codes - 1) by lia.
  repeat split.
  - intros k Hk. now apply (code_weight_ok Hm z i zi).
  - now apply (accumulate_ok Hm z i zi).
  - unfold den_val, later_codes. rewrite En.
    destruct (Z.to_nat num_codes) as [|n] eqn:E; [lia|].
    replace (S n - 1) with n by lia. reflexivity.
  - intros c Hcj. unfold x_vec.
    rewrite (nth_error_nth_length f0)
      by (rewrite length_map, length_seq; lia).
    f_equal.
    rewrite (nth_indep _ f0
               (x_val NUM_COEFF variance prob tilt means corrbook num_codes zi
                  0))
      by (rewrite length_map, length_seq; lia).
    rewrite (map_nth
               (x_val NUM_COEFF variance prob tilt means corrbook num_codes
                  zi)).
    rewrite seq_nth by lia. cbn [Nat.add].
    unfold x_val, later_codes, contrib. now rewrite En.
Qed.

(** C4.  Once the codewords are processed, with [x] and [den] the
    accumulated numerator and total responsibility of frame [i]: if
    [den != 0] the frame step succeeds and row [i] of [z] is replaced by the
    vector of the [x[j] / den], [j = 0 .. NUM_COEFF]. *)
Theorem frame_overwritten_with_x_over_den
  (z : list (list F)) (i : nat) (zi x : list F) :
  model_ok NUM_COEFF variance prob tilt means corrbook num_codes ->
  nth_error z i = Some zi ->
  length zi = S NUM_COEFF ->
  length x = S NUM_COEFF ->
  exists (xs : list F) (den : F) (j : nat),
    accumulate NUM_COEFF variance prob tilt means corrbook num_codes i z x =
    Ok (xs, den, j) /\
    length xs = S NUM_COEFF /\
    (fnonzero den = true ->
     frame_step NUM_COEFF variance prob tilt means corrbook num_codes i
       (z, x) =
     Ok (set_nth i (map (fun xj => fdiv xj den) xs) z, xs)).
Proof.
  intros Hm Hrow Hlen Hx.
  exists (x_vec NUM_COEFF variance prob tilt means corrbook num_codes zi),
    (den_val NUM_COEFF variance prob tilt means corrbook num_codes zi),
    (S NUM_COEFF).
  split; [now apply (accumulate_ok Hm z i zi)|].
  split; [unfold x_vec; now rewrite length_map, length_seq|].
  intros Hden.
  rewrite (frame_step_ok Hm z i zi Hrow Hlen x Hx).
  now rewrite Hden.
Qed.

(** When [den != 0], the step of frame [i] writes into row [i] the vector
    [clean], which is computed from the model and from row [i] alone, and
    leaves every other row as it was. *)
Lemma frame_step_touches_own_row
  (z : list (list F)) (i : nat) (zi x : list F) :
  model_ok NUM_COEFF variance prob tilt means corrbook num_codes ->
  nth_error z i = Some zi ->
  length zi = S NUM_COEFF ->
  length x = S NUM_COEFF ->
  fnonzero (den_val NUM_COEFF variance prob tilt means corrbook num_codes zi)
  = true ->
  exists (z' : list (list F)) (x' : list F),
    frame_step NUM_COEFF variance prob tilt means corrbook num_codes i
      (z, x) = Ok (z', x') /\
    length z' = length z /\
    nth_error z' i =
    Some (clean NUM_COEFF variance prob tilt means corrbook num_codes zi) /\
    forall i', i' <> i -> nth_error z' i' = nth_error z i'.
Proof.
  intros Hm Hrow Hlen Hx Hden.
  rewrite (frame_step_ok Hm z i zi Hrow Hlen x Hx), Hden.
  eexists _, _. split; [reflexivity|].
  assert (Hi : i < length z) by (apply nth_error_Some; congruence).
  split; [apply set_nth_length|].
  split; [now apply nth_error_set_nth_eq|].
  intros i' Hne. now apply nth_error_set_nth_neq.
Qed.

(** C6.  When normalisation is disabled ([run_cdcn] is zero) or the model
    is not initialised ([firstcall] is non-zero), [block_cdcn_norm] returns
    normally with every frame as it was, whatever the frames, their number
    and the rest of the model. *)
Theorem block_cdcn_norm_gated
  (z : list (list F)) (num_frames : Z) (cdcn_variables : CDCN_type) :
  run_cdcn cdcn_variables = 0%Z \/ firstcall cdcn_variables <> 0%Z ->
  block_cdcn_norm NUM_COEFF z num_frames cdcn_variables = Ok z.
Proof.
  intros [Hrun | Hfirst]; unfold block_cdcn_norm.
  - now rewrite Hrun.
  - destruct (run_cdcn cdcn_variables =? 0)%Z; [reflexivity|].
    apply Z.eqb_neq in Hfirst. now rewrite Hfirst.
Qed.

(** C8.  The noise vector has no influence: two runs of
    [block_actual_cdcn_norm] that differ only in the noise vector give the
    same result, and so do two runs of [block_cdcn_norm] on models that
    differ only in their noise vector. *)
Theorem noise_not_consumed
  (noise noise' : list F) (z : list (list F)) (num_frames : Z)
  (cdcn_variables : CDCN_type) :
  block_actual_cdcn_norm NUM_COEFF variance prob tilt noise means corrbook
    num_codes z num_frames =
  block_actual_cdcn_norm NUM_COEFF variance prob tilt noise' means corrbook
    num_codes z num_frames /\
  block_cdcn_norm NUM_COEFF z num_frames (with_noise cdcn_variables noise') =
  block_cdcn_norm NUM_COEFF z num_frames cdcn_variables.
Proof.
  split; reflexivity.
Qed.

End Generic.

(** ** Exact arithmetic *)

Lemma fnonzero_pos (x : R) : (0 < x)%R -> fnonzero x = true.
Proof.
  intros Hx. cbn. destruct (Req_dec_T x 0) as [E|_]; [lra | reflexivity].
Qed.

Lemma fnonzero_zero : fnonzero 0%R = false.
Proof.
  cbn. destruct (Req_dec_T 0 0) as [_|E]; [reflexivity | now elim E].
Qed.

Lemma fold_left_ext {A B : Type} (f g : A -> B -> A) (l : list B) (a : A) :
  (forall a b, f a b = g a b) -> fold_left f l a = fold_left g l a.
Proof.
  intros Hfg. revert a; induction l as [|b l IH]; intros a; simpl;
    [reflexivity | now rewrite Hfg, IH].
Qed.

Lemma fold_sum_f_R0 (f : nat -> R) (N : nat) :
  fold_left (fun d j => (d + f j)%R) (seq 1 N) (f 0) = sum_f_R0 f N.
Proof.
  induction N as [|N IH]; [reflexivity|].
  rewrite seq_S, fold_left_app, IH. reflexivity.
Qed.

Lemma sum_f_R0_nonneg (f : nat -> R) (N : nat) :
  (forall j, j <= N -> (0 <= f j)%R) -> (0 <= sum_f_R0 f N)%R.
Proof.
  induction N as [|N IH]; intros Hf; simpl.
  - apply Hf; lia.
  - assert (0 <= sum_f_R0 f N)%R by (apply IH; intros; apply Hf; lia).
    assert (0 <= f (S N))%R by (apply Hf; lia). lra.
Qed.

Lemma fold_Rplus_ge (l : list R) :
  forall a, Forall (fun e => 0 <= e)%R l -> (a <= fold_left Rplus l a)%R.
Proof.
  induction l as [|e l IH]; intros a Hl; simpl; [lra|].
  inversion Hl as [|? ? He Hl']; subst.
  specialize (IH (a + e)%R Hl'). lra.
Qed.

Lemma fold_Rplus_gt (l : list R) :
  forall a, Forall (fun e => 0 <= e)%R l -> Exists (fun e => 0 < e)%R l ->
            (a < fold_left Rplus l a)%R.
Proof.
  induction l as [|e l IH]; intros a Hl Hex; simpl.
  - inversion Hex.
  - inversion Hl as [|? ? He Hl']; subst.
    inversion Hex as [? ? Hpos | ? ? Hex']; subst.
    + pose proof (fold_Rplus_ge l (a + e)%R Hl'). lra.
    + specialize (IH (a + e)%R Hl' Hex'). lra.
Qed.

Section Exact.

Variable NUM_COEFF : nat.

Variables (variance : list (list R)) (prob tilt : list R)
          (means corrbook : list (list R)) (num_codes : Z).

Local Open Scope R_scope.

Local Abbreviation spec_dist :=
  (spec_distance NUM_COEFF variance tilt means corrbook).
Local Abbreviation dist_code := (dist NUM_COEFF variance tilt means corrbook).
Local Abbreviation fk_code := (fk NUM_COEFF variance prob tilt means corrbook).
Local Abbreviation den_code :=
  (den_val NUM_COEFF variance prob tilt means corrbook num_codes).
Local Abbreviation shape :=
  (model_ok NUM_COEFF variance prob tilt means corrbook num_codes).

Lemma dist_spec (zi : list R) (k : nat) :
  dist_code zi k = spec_dist zi k.
Proof.
  unfold spec_distance. rewrite <- fold_sum_f_R0.
  destruct k as [|k]; cbn [dist]; unfold term_first, term0, termk; cbn;
    match goal with
    | |- fold_left _ _ ?a = fold_left _ _ ?b =>
        replace a with b by (unfold Rdiv; f_equal; ring)
    end;
    apply fold_left_ext; intros a b; unfold Rdiv; f_equal; f_equal; ring.
Qed.

Lemma at2_in (m : list (list R)) (n k j : nat) (P : R -> Prop) :
  rows_ok (S NUM_COEFF) n m -> Forall (Forall P) m ->
  (k < n)%nat -> (j <= NUM_COEFF)%nat -> P (at2 m k j).
Proof.
  intros [Hlen Hrows] HP Hk Hj. unfold at2.
  rewrite Forall_forall in Hrows, HP.
  assert (Hin : In (nth k m []) m) by (apply nth_In; lia).
  specialize (Hrows _ Hin). specialize (HP _ Hin).
  rewrite Forall_forall in HP. apply HP, nth_In. lia.
Qed.

Lemma spec_distance_nonneg (zi : list R) (k : nat) :
  shape -> Forall (Forall (fun v => 0 < v)) variance ->
  (k < Z.to_nat num_codes)%nat -> 0 <= spec_dist zi k.
Proof.
  intros Hm Hv Hk. unfold spec_distance.
  apply sum_f_R0_nonneg. intros j Hj.
  assert (Hpos : 0 < at2 variance k j).
  { destruct Hm.
    apply (at2_in variance (Z.to_nat num_codes) k j (fun v => 0 < v));
      auto. }
  apply Rmult_le_pos; [apply pow2_ge_0|].
  left. now apply Rinv_0_lt_compat.
Qed.

Lemma at1_in (v : list R) (k : nat) (P : R -> Prop) :
  Forall P v -> (k < length v)%nat -> P (at1 v k).
Proof.
  intros HP Hk. rewrite Forall_forall in HP. apply HP, nth_In, Hk.
Qed.

Lemma fk_nonneg (zi : list R) (k : nat) :
  0 <= at1 prob k -> 0 <= fk_code zi k.
Proof.
  intros Hp. unfold fk, fk_of. cbn.
  apply Rmult_le_pos; [left; apply exp_pos | assumption].
Qed.

Lemma fk_pos (zi : list R) (k : nat) :
  0 < at1 prob k -> 0 < fk_code zi k.
Proof.
  intros Hp. unfold fk, fk_of. cbn.
  apply Rmult_lt_0_compat; [apply exp_pos | assumption].
Qed.

Lemma den_val_pos (zi : list R) :
  shape ->
  Forall (fun p => 0 <= p) prob ->
  (exists k, (k < Z.to_nat num_codes)%nat /\ 0 < at1 prob k) ->
  0 < den_code zi.
Proof.
  intros Hm Hnn [k [Hk Hp]]. destruct Hm as [Hc _ _ _ Hlp _].
  unfold den_val. cbn [fadd RArith].
  assert (Hall : Forall (fun e => 0 <= e)
                   (map (fk_code zi) (later_codes num_codes))).
  { apply Forall_forall. intros e He. apply in_map_iff in He.
    destruct He as [k' [<- Hk']]. unfold later_codes in Hk'.
    apply in_seq in Hk'. apply fk_nonneg.
    apply (at1_in prob _ (fun p => 0 <= p)); [assumption | lia]. }
  destruct k as [|k].
  - pose proof (fk_pos zi 0 Hp).
    pose proof (fold_Rplus_ge _ (fk_code zi 0) Hall). lra.
  - assert (0 <= fk_code zi 0).
    { apply fk_nonneg.
      apply (at1_in prob _ (fun p => 0 <= p)); [assumption | lia]. }
    assert (fk_code zi 0 <
            fold_left Rplus (map (fk_code zi) (later_codes num_codes))
              (fk_code zi 0)).
    { apply fold_Rplus_gt; [assumption|].
      apply Exists_exists. exists (fk_code zi (S k)). split.
      - apply in_map. unfold later_codes. apply in_seq. lia.
      - now apply fk_pos. }
    lra.
Qed.

(** C5.  For every frame of a well-shaped utterance and every codeword
    [k], the code returns as distance the sum over [j = 0 .. NUM_COEFF] of
    [(z[j] - tilt[j] - mean[k][j] - correction[k][j])^2 / variance[k][j]],
    and as weight [exp (- distance / 2) * prior[k]]. *)
Theorem distance_and_weight_as_specified
  (z : list (list R)) (i : nat) (zi : list R) (k : nat) :
  shape ->
  nth_error z i = Some zi ->
  length zi = S NUM_COEFF ->
  (k < Z.to_nat num_codes)%nat ->
  code_distance NUM_COEFF variance tilt means corrbook i k z =
  Ok (spec_dist zi k, S NUM_COEFF) /\
  code_weight NUM_COEFF variance prob tilt means corrbook i k z =
  Ok (exp (- spec_dist zi k / 2) * at1 prob k, S NUM_COEFF).
Proof.
  intros Hm Hrow Hlen Hk. split.
  - rewrite (code_distance_ok Hm z i zi Hrow Hlen k Hk).
    now rewrite dist_spec.
  - rewrite (code_weight_ok Hm z i zi Hrow Hlen k Hk).
    unfold fk. now rewrite dist_spec.
Qed.

(** C9.  When every entry of every variance vector is strictly positive,
    the distance the code computes for any frame and any codeword is
    greater than or equal to zero. *)
Theorem distance_nonnegative
  (z : list (list R)) (i : nat) (zi : list R) (k : nat) :
  shape ->
  nth_error z i = Some zi ->
  length zi = S NUM_COEFF ->
  (k < Z.to_nat num_codes)%nat ->
  Forall (Forall (fun v => 0 < v)) variance ->
  exists (d : R) (j : nat),
    code_distance NUM_COEFF variance tilt means corrbook i k z = Ok (d, j) /\
    0 <= d.
Proof.
  intros Hm Hrow Hlen Hk Hv.
  exists (spec_dist zi k), (S NUM_COEFF). split.
  - rewrite (code_distance_ok Hm z i zi Hrow Hlen k Hk).
    now rewrite dist_spec.
  - now apply spec_distance_nonneg.
Qed.

(** C10, amended.  If no prior is negative, at least one prior is strictly
    positive and all the variances are strictly positive, then for every
    frame [den] is strictly positive: the frame step takes the [den != 0]
    branch and returns normally. *)
Theorem den_positive_for_nonnegative_priors
  (z : list (list R)) (i : nat) (zi x : list R) :
  shape ->
  nth_error z i = Some zi ->
  length zi = S NUM_COEFF ->
  length x = S NUM_COEFF ->
  Forall (fun p => 0 <= p) prob ->
  (exists k, (k < Z.to_nat num_codes)%nat /\ 0 < at1 prob k) ->
  Forall (Forall (fun v => 0 < v)) variance ->
  exists (xs : list R) (den : R) (j : nat),
    accumulate NUM_COEFF variance prob tilt means corrbook num_codes i z x =
    Ok (xs, den, j) /\
    den = sum_from_first
            (map (fun k => exp (- spec_dist zi k / 2) * at1 prob k)
               (seq 0 (Z.to_nat num_codes))) /\
    0 < den /\
    frame_step NUM_COEFF variance prob tilt means corrbook num_codes i
      (z, x) =
    Ok (set_nth i (map (fun xj => xj / den) xs) z, xs).
Proof.
  intros Hm Hrow Hlen Hx Hnn Hex _.
  pose proof (den_val_pos zi Hm Hnn Hex) as Hpos.
  exists (x_vec NUM_COEFF variance prob tilt means corrbook num_codes zi),
    (den_code zi), (S NUM_COEFF).
  split; [apply (accumulate_ok Hm z i zi Hrow Hlen x Hx)|].
  split.
  { assert (Hc : (1 <= num_codes)%Z) by now destruct Hm.
    unfold den_val, later_codes.
    replace (Z.to_nat (num_codes - 1)) with (Z.to_nat num_codes - 1)%nat
      by lia.
    destruct (Z.to_nat num_codes) as [|n] eqn:E; [lia|].
    replace (S n - 1)%nat with n by lia.
    cbn [seq map sum_from_first].
    unfold fk at 2. rewrite dist_spec. f_equal.
    apply map_ext. intros k. unfold fk. now rewrite dist_spec. }
  split; [assumption|].
  rewrite (frame_step_ok Hm z i zi Hrow Hlen x Hx).
  now rewrite (fnonzero_pos _ Hpos).
Qed.

End Exact.

Section ExactSingle.

Variable NUM_COEFF : nat.

Variables (variance : list (list R)) (prob tilt : list R)
          (means corrbook : list (list R)).

Local Open Scope R_scope.

(** C7.  With a single codeword ([num_codes = 1]) the accumulated [x] of
    every frame is the zero vector, and whenever [den != 0] the frame step
    writes the all-zero vector back into the frame. *)
Theorem single_codeword_cleans_to_zero
  (z : list (list R)) (i : nat) (zi x : list R) :
  model_ok NUM_COEFF variance prob tilt means corrbook 1 ->
  nth_error z i = Some zi ->
  length zi = S NUM_COEFF ->
  length x = S NUM_COEFF ->
  exists (den : R) (j : nat),
    accumulate NUM_COEFF variance prob tilt means corrbook 1 i z x =
    Ok (repeat 0 (S NUM_COEFF), den, j) /\
    (fnonzero den = true ->
     frame_step NUM_COEFF variance prob tilt means corrbook 1 i (z, x) =
     Ok (set_nth i (repeat 0 (S NUM_COEFF)) z, repeat 0 (S NUM_COEFF))).
Proof.
  intros Hm Hrow Hlen Hx.
  assert (Ex : x_vec NUM_COEFF variance prob tilt means corrbook 1 zi =
               repeat 0 (S NUM_COEFF)).
  { unfold x_vec, x_val, later_codes.
    change (seq 1 (Z.to_nat (1 - 1))) with (@nil nat). cbn [map fold_left].
    exact (map_const_seq 0 (S NUM_COEFF) 0%nat). }
  exists (den_val NUM_COEFF variance prob tilt means corrbook 1 zi),
    (S NUM_COEFF).
  split.
  - rewrite (accumulate_ok Hm z i zi Hrow Hlen x Hx). now rewrite Ex.
  - intros Hden. rewrite (frame_step_ok Hm z i zi Hrow Hlen x Hx), Hden.
    unfold clean. rewrite Ex, map_repeat. cbn [fdiv RArith f0].
    now rewrite Rdiv_0_l.
Qed.

End ExactSingle.

(** ** Symbolic runs, with [NUM_COEFF = 1] *)

Section SymbolicRuns.

Let z := sym_mat Az 1 2.
Let variance := sym_mat Avariance 2 2.
Let means := sym_mat Ameans 2 2.
Let corrbook := sym_mat Acorrbook 2 2.
Let prob := sym_vec Aprob 2.
Let tilt := sym_vec Atilt 2.

(** The distance of frame 0 to codeword [k], as lines 87-93 compute it for
    [k = 0] and lines 101-107 for [k = 1], and the two weights. *)
Let d0 : sym :=
  SAdd
    (SDiv (SMul (SSub (SSub (SSub (SIn Az 0 0) (SIn Ameans 0 0))
                         (SIn Acorrbook 0 0)) (SIn Atilt 0 0))
                (SSub (SSub (SSub (SIn Az 0 0) (SIn Ameans 0 0))
                         (SIn Acorrbook 0 0)) (SIn Atilt 0 0)))
          (SIn Avariance 0 0))
    (SDiv (SMul (SSub (SSub (SSub (SIn Az 0 1) (SIn Atilt 0 1))
                         (SIn Ameans 0 1)) (SIn Acorrbook 0 1))
                (SSub (SSub (SSub (SIn Az 0 1) (SIn Atilt 0 1))
                         (SIn Ameans 0 1)) (SIn Acorrbook 0 1)))
          (SIn Avariance 0 1)).

Let d1 : sym :=
  SAdd
    (SDiv (SMul (SSub (SSub (SSub (SIn Az 0 0) (SIn Ameans 1 0))
                         (SIn Acorrbook 1 0)) (SIn Atilt 0 0))
                (SSub (SSub (SSub (SIn Az 0 0) (SIn Ameans 1 0))
                         (SIn Acorrbook 1 0)) (SIn Atilt 0 0)))
          (SIn Avariance 1 0))
    (SDiv (SMul (SSub (SSub (SSub (SIn Az 0 1) (SIn Atilt 0 1))
                         (SIn Acorrbook 1 1)) (SIn Ameans 1 1))
                (SSub (SSub (SSub (SIn Az 0 1) (SIn Atilt 0 1))
                         (SIn Acorrbook 1 1)) (SIn Ameans 1 1)))
          (SIn Avariance 1 1)).

Let w0 : sym := SMul (SExp (SDiv (SOpp d0) STwo)) (SIn Aprob 0 0).
Let w1 : sym := SMul (SExp (SDiv (SOpp d1) STwo)) (SIn Aprob 0 1).

Example sym_accumulate_two_codewords :
  accumulate (AF := SymArith (fun _ => true)) 1 variance prob tilt means
    corrbook 2 0 z [SZero; SZero] =
  Ok ([SAdd SZero
         (SMul (SSub (SSub (SIn Az 0 0) (SIn Atilt 0 0)) (SIn Acorrbook 1 0))
            w1);
       SAdd SZero
         (SMul (SSub (SSub (SIn Az 0 1) (SIn Atilt 0 1)) (SIn Acorrbook 1 1))
            w1)],
      SAdd w0 w1, 2).
Proof. reflexivity. Qed.

Example sym_frame_step_nonzero :
  frame_step (AF := SymArith (fun _ => true)) 1 variance prob tilt means
    corrbook 1 0 (z, [SZero; SZero]) =
  Ok ([[SDiv SZero w0; SDiv SZero w0]], [SZero; SZero]).
Proof. reflexivity. Qed.

Example sym_frame_step_zero :
  frame_step (AF := SymArith (fun _ => false)) 1 variance prob tilt means
    corrbook 1 0 (z, [SZero; SZero]) =
  Fault (At2 Az 0 2).
Proof. reflexivity. Qed.

End SymbolicRuns.

(** ** Concrete runs *)

Local Open Scope R_scope.

Ltac shape_ok :=
  repeat match goal with
    | |- model_ok _ _ _ _ _ _ _ => constructor
    | |- rows_ok _ _ _ => split
    | |- Forall _ _ => constructor
    | |- (_ <= _)%Z => lia
    | |- (_ < _)%nat => cbn; lia
    | |- (_ <= _)%nat => cbn; lia
    | |- @eq nat _ _ => reflexivity
    | |- @eq (option _) _ _ => reflexivity
    | |- (_ < _)%R => lra
    | |- (_ <= _)%R => lra
    end.

Lemma ex_model_ok :
  model_ok 1 ex_variance ex_prob ex_tilt ex_means ex_corrbook 2.
Proof. shape_ok. Qed.

Lemma accumulate_den_all_codes_x_later_codes_witness :
  exists (w : nat -> R) (xs : list R) (den : R) (j : nat),
    (forall k, (k < 2)%nat ->
       code_weight 1 ex_variance ex_prob ex_tilt ex_means ex_corrbook 0 k
         ex_z = Ok (w k, 2%nat)) /\
    accumulate 1 ex_variance ex_prob ex_tilt ex_means ex_corrbook 2 0 ex_z
      [0; 0] = Ok (xs, den, j) /\
    den = sum_from_first (map w [0%nat; 1%nat]) /\
    forall c, (c <= 1)%nat ->
      nth_error xs c =
      Some (fold_left Rplus
              (map (fun k => (at1 [1; 2] c - at1 ex_tilt c
                              - at2 ex_corrbook k c) * w k) [1%nat])
              0).
Proof.
  refine (accumulate_den_all_codes_x_later_codes 1 ex_variance ex_prob
            ex_tilt ex_means ex_corrbook 2 ex_z 0 [1; 2] [0; 0] _ _ _ _);
    shape_ok.
Defined.

Lemma frame_overwritten_with_x_over_den_witness :
  exists (xs : list R) (den : R) (j : nat),
    accumulate 1 ex_variance ex_prob ex_tilt ex_means ex_corrbook 2 0 ex_z
      [0; 0] = Ok (xs, den, j) /\
    length xs = 2%nat /\
    fnonzero den = true /\
    frame_step 1 ex_variance ex_prob ex_tilt ex_means ex_corrbook 2 0
      (ex_z, [0; 0]) =
    Ok (set_nth 0 (map (fun xj => xj / den) xs) ex_z, xs).
Proof.
  destruct (frame_overwritten_with_x_over_den 1 ex_variance ex_prob ex_tilt
              ex_means ex_corrbook 2 ex_z 0 [1; 2] [0; 0]
              ex_model_ok eq_refl eq_refl eq_refl)
    as (xs & den & j & Hacc & Hlen & Hstep).
  assert (Hnz : fnonzero den = true).
  { rewrite (accumulate_ok ex_model_ok ex_z 0 [1; 2] eq_refl eq_refl [0; 0]
               eq_refl) in Hacc.
    assert (E : den_val 1 ex_variance ex_prob ex_tilt ex_means ex_corrbook 2
                  [1; 2] = den) by congruence.
    rewrite <- E.
    apply fnonzero_pos, den_val_pos; [exact ex_model_ok | shape_ok |].
    exists 0%nat. split; [cbn; lia | cbn; lra]. }
  exists xs, den, j. auto.
Defined.

Lemma distance_and_weight_as_specified_witness :
  code_distance 1 ex_variance ex_tilt ex_means ex_corrbook 1 1 ex_z =
  Ok (spec_distance 1 ex_variance ex_tilt ex_means ex_corrbook [3; 4] 1,
      2%nat) /\
  code_weight 1 ex_variance ex_prob ex_tilt ex_means ex_corrbook 1 1 ex_z =
  Ok (exp (- spec_distance 1 ex_variance ex_tilt ex_means ex_corrbook
               [3; 4] 1 / 2) * at1 ex_prob 1, 2%nat).
Proof.
  refine (distance_and_weight_as_specified 1 ex_variance ex_prob ex_tilt
            ex_means ex_corrbook 2 ex_z 1 [3; 4] 1 _ _ _ _);
    shape_ok.
Defined.

Lemma block_cdcn_norm_gated_witness :
  block_cdcn_norm 1 ex_z 2 ex_disabled = Ok ex_z.
Proof.
  apply (block_cdcn_norm_gated 1 ex_z 2 ex_disabled).
  left. reflexivity.
Defined.

Lemma single_codeword_cleans_to_zero_witness :
  exists (den : R) (j : nat),
    accumulate 1 one_variance [1] ex_tilt one_means one_corrbook 1 0 ex_z
      [0; 0] = Ok ([0; 0], den, j) /\
    fnonzero den = true /\
    frame_step 1 one_variance [1] ex_tilt one_means one_corrbook 1 0
      (ex_z, [0; 0]) =
    Ok ([[0; 0]; [3; 4]], [0; 0]).
Proof.
  assert (Hm : model_ok 1 one_variance [1] ex_tilt one_means one_corrbook 1)
    by shape_ok.
  destruct (single_codeword_cleans_to_zero 1 one_variance [1] ex_tilt
              one_means one_corrbook ex_z 0 [1; 2] [0; 0]
              Hm eq_refl eq_refl eq_refl)
    as (den & j & Hacc & Hstep).
  assert (Hnz : fnonzero den = true).
  { rewrite (accumulate_ok Hm ex_z 0 [1; 2] eq_refl eq_refl [0; 0] eq_refl)
      in Hacc.
    assert (E : den_val 1 one_variance [1] ex_tilt one_means one_corrbook 1
                  [1; 2] = den) by congruence.
    rewrite <- E.
    apply fnonzero_pos, den_val_pos; [exact Hm | shape_ok |].
    exists 0%nat. split; [cbn; lia | cbn; lra]. }
  exists den, j. auto.
Defined.

Lemma distance_nonnegative_witness :
  exists (d : R) (j : nat),
    code_distance 1 ex_variance ex_tilt ex_means ex_corrbook 1 1 ex_z =
    Ok (d, j) /\ 0 <= d.
Proof.
  refine (distance_nonnegative 1 ex_variance ex_prob ex_tilt ex_means
            ex_corrbook 2 ex_z 1 [3; 4] 1 _ _ _ _ _);
    shape_ok.
Defined.

Lemma den_positive_for_nonnegative_priors_witness :
  exists (xs : list R) (den : R) (j : nat),
    accumulate 1 ex_variance ex_prob ex_tilt ex_means ex_corrbook 2 0 ex_z
      [0; 0] = Ok (xs, den, j) /\
    den = sum_from_first
            (map (fun k =>
                    exp (- spec_distance 1 ex_variance ex_tilt ex_means
                             ex_corrbook [1; 2] k / 2) * at1 ex_prob k)
               [0%nat; 1%nat]) /\
    0 < den /\
    frame_step 1 ex_variance ex_prob ex_tilt ex_means ex_corrbook 2 0
      (ex_z, [0; 0]) =
    Ok (set_nth 0 (map (fun xj => xj / den) xs) ex_z, xs).
Proof.
  refine (den_positive_for_nonnegative_priors 1 ex_variance ex_prob ex_tilt
            ex_means ex_corrbook 2 ex_z 0 [1; 2] [0; 0] _ _ _ _ _ _ _);
    shape_ok.
  exists 0%nat. split; [cbn; lia | cbn; lra].
Defined.

(** A single codeword whose prior is zero: [den] is zero for every frame. *)
Lemma den_val_zero_prior (NUM_COEFF : nat) (variance : list (list R))
  (tilt : list R) (means corrbook : list (list R)) (zi : list R) :
  den_val NUM_COEFF variance [0] tilt means corrbook 1 zi = 0.
Proof.
  unfold den_val, later_codes.
  change (seq 1 (Z.to_nat (1 - 1))) with (@nil nat). cbn [map fold_left].
  unfold fk, fk_of. cbn [at1 nth fmul RArith]. apply Rmult_0_r.
Qed.

(** C2, as the code has it.  One frame, one codeword of prior zero, so that
    [den = 0]: the run stops in the fallback branch at the access to
    [z[0][j]] with [j = NUM_COEFF + 1 = 2], an index that is not within
    [0 .. NUM_COEFF]. *)
Theorem fallback_index_past_the_frame :
  exists j : nat,
    block_actual_cdcn_norm 1 one_variance [0] ex_tilt ex_noise one_means
      one_corrbook 1 [[1; 2]] 1 = Fault (At2 Az 0 j) /\
    ~ (j <= 1)%nat.
Proof.
  exists 2%nat. split; [|lia].
  unfold block_actual_cdcn_norm.
  change (Z.to_nat 1) with 1%nat. cbn [for_count].
  assert (Hm : model_ok 1 one_variance [0] ex_tilt one_means one_corrbook 1)
    by shape_ok.
  rewrite (frame_step_ok Hm [[1; 2]] 0 [1; 2] eq_refl eq_refl (repeat f0 2)
             eq_refl).
  rewrite den_val_zero_prior, fnonzero_zero. reflexivity.
Qed.

(** C3, as the code has it.  Two frames, one codeword of prior zero: the
    step of frame 0 stops at the access to [z[0][2]], a cell that is not in
    frame 0; it is the cell of [z[1][0]], the first entry of frame 1. *)
Theorem fallback_cell_in_next_frame :
  frame_step 1 one_variance [0] ex_tilt one_means one_corrbook 1 0
    (ex_z, [0; 0]) = Fault (At2 Az 0 2) /\
  flat_offset 1 0 2 = flat_offset 1 1 0.
Proof.
  split; [|reflexivity].
  assert (Hm : model_ok 1 one_variance [0] ex_tilt one_means one_corrbook 1)
    by shape_ok.
  rewrite (frame_step_ok Hm ex_z 0 [1; 2] eq_refl eq_refl [0; 0] eq_refl).
  rewrite den_val_zero_prior, fnonzero_zero. reflexivity.
Qed.

(** C10, as stated, fails.  Two identical codewords of unit variance with
    priors [1] and [-1]: one prior is strictly positive and all variances
    are strictly positive, yet [den] is zero in exact arithmetic and the
    frame step ends in the fallback branch. *)
Lemma den_zero_with_a_negative_prior :
  (exists k, (k < 2)%nat /\ 0 < at1 [1; -1] k) /\
  Forall (Forall (fun v => 0 < v)) ex_variance /\
  model_ok 1 ex_variance [1; -1] ex_tilt twin_rows twin_rows 2 /\
  (exists (xs : list R) (j : nat),
     accumulate 1 ex_variance [1; -1] ex_tilt twin_rows twin_rows 2 0
       ex_z [0; 0] = Ok (xs, 0, j)) /\
  frame_step 1 ex_variance [1; -1] ex_tilt twin_rows twin_rows 2 0
    (ex_z, [0; 0]) = Fault (At2 Az 0 2).
Proof.
  assert (Hm : model_ok 1 ex_variance [1; -1] ex_tilt twin_rows twin_rows 2)
    by shape_ok.
  assert (Hden : den_val 1 ex_variance [1; -1] ex_tilt twin_rows twin_rows 2
                   [1; 2] = 0).
  { unfold den_val, later_codes.
    change (seq 1 (Z.to_nat (2 - 1))) with [1%nat]. cbn [map fold_left].
    unfold fk. rewrite !dist_spec. unfold fk_of, spec_distance.
    cbn [sum_f_R0 at1 at2 nth ex_variance ex_tilt twin_rows
         fadd fmul fdiv fopp fexp f2 RArith].
    ring. }
  split; [exists 0%nat; split; [lia | cbn; lra]|].
  split; [shape_ok|].
  split; [exact Hm|].
  split.
  - exists (x_vec 1 ex_variance [1; -1] ex_tilt twin_rows twin_rows 2
              [1; 2]), 2%nat.
    rewrite (accumulate_ok Hm ex_z 0 [1; 2] eq_refl eq_refl [0; 0] eq_refl).
    now rewrite Hden.
  - rewrite (frame_step_ok Hm ex_z 0 [1; 2] eq_refl eq_refl [0; 0] eq_refl).
    rewrite Hden, fnonzero_zero. reflexivity.
Qed.

(** A whole run with the first codeword alone: both frames come back as
    zeros, since no term of codeword 0 enters [x]. *)
Example single_codeword_run :
  block_actual_cdcn_norm 1 one_variance [1] ex_tilt ex_noise one_means
    one_corrbook 1 ex_z 2 = Ok [[0; 0]; [0; 0]].
Proof.
  assert (Hm : model_ok 1 one_variance [1] ex_tilt one_means one_corrbook 1)
    by shape_ok.
  assert (Hpos : forall zi,
             fnonzero (den_val 1 one_variance [1] ex_tilt one_means
                         one_corrbook 1 zi) = true).
  { intros zi. apply fnonzero_pos, den_val_pos; [assumption | shape_ok |].
    exists 0%nat. split; [cbn; lia | cbn; lra]. }
  rewrite (block_actual_ok Hm ex_noise ex_z 2).
  - change (Z.to_nat 2) with 2%nat. cbn [firstn skipn ex_z map app].
    unfold clean, x_vec, x_val, later_codes.
    change (seq 1 (Z.to_nat (1 - 1))) with (@nil nat).
    cbn [seq map fold_left fdiv f0 RArith].
    now rewrite !Rdiv_0_l.
  - split; [cbn; lia | shape_ok].
  - change (Z.to_nat 2) with 2%nat. cbn [firstn ex_z].
    repeat constructor; apply Hpos.
Qed.

(** * Further properties of the code *)

Local Close Scope R_scope.

(** ** In every arithmetic *)

Lemma for_count_ext {St : Type} (body body' : nat -> St -> result St) :
  (forall j s, body j s = body' j s) ->
  forall (n lo : nat) (s : St),
    for_count n lo body s = for_count n lo body' s.
Proof.
  intros Hb. induction n as [|n IH]; intros lo s; cbn [for_count];
    [reflexivity|].
  rewrite Hb. destruct (body' lo s); [apply IH | reflexivity].
Qed.

Lemma nth_error_firstn_Some {A : Type} (n : nat) (l : list A) (k : nat)
  (a : A) :
  nth_error (firstn n l) k = Some a -> k < n /\ nth_error l k = Some a.
Proof.
  revert l k; induction n as [|n IH]; intros l k H.
  - destruct k; discriminate.
  - destruct l as [|h t]; [destruct k; discriminate|].
    destruct k as [|k]; cbn in *; [split; [lia | assumption]|].
    destruct (IH t k H). split; [lia | assumption].
Qed.

Section More.

Context {F : Type} {AF : Arith F}.
Variable NUM_COEFF : nat.

Variables (variance : list (list F)) (prob tilt : list F)
          (means corrbook : list (list F)) (num_codes : Z).

Local Abbreviation shape :=
  (model_ok NUM_COEFF variance prob tilt means corrbook num_codes).
Local Abbreviation den_code :=
  (den_val NUM_COEFF variance prob tilt means corrbook num_codes).
Local Abbreviation clean_code :=
  (clean NUM_COEFF variance prob tilt means corrbook num_codes).
Local Abbreviation frames_val_code :=
  (frames_val NUM_COEFF variance prob tilt means corrbook num_codes).
Local Abbreviation run :=
  (block_actual_cdcn_norm NUM_COEFF variance prob tilt).



Lemma frames_val_Fault (rows : list (list F)) :
  forall (i : nat) (w : access),
    frames_val_code i rows = Fault w ->
    exists (k : nat) (r : list F),
      nth_error rows k = Some r /\
      fnonzero (den_code r) = false /\
      w = At2 Az (i + k) (S NUM_COEFF).
Proof.
  induction rows as [|r t IH]; intros i w H; cbn [frames_val] in H.
  - discriminate.
  - destruct (fnonzero (den_code r)) eqn:Hd.
    + destruct (frames_val_code (S i) t) as [l'|w'] eqn:E; [discriminate|].
      cbn [bind] in H. injection H as <-.
      destruct (IH (S i) w' E) as (k & r' & Hk & Hr' & ->).
      exists (S k), r'. repeat split; auto.
    + injection H as <-. exists 0, r. repeat split; auto.
Qed.

(** X1.  With no frame to process ([num_frames] zero or negative) the
    core returns the frame array as it is and makes no access at all,
    whatever the model and the arrays; so does the wrapper, whatever its
    flags. *)
Theorem no_frames_nothing_done
  (noise : list F) (z : list (list F)) (num_frames : Z)
  (cdcn_variables : CDCN_type) :
  (num_frames <= 0)%Z ->
  run noise means corrbook num_codes z num_frames = Ok z /\
  block_cdcn_norm NUM_COEFF z num_frames cdcn_variables = Ok z.
Proof.
  intros Hn.
  assert (E : forall v p t nv m c nc,
             block_actual_cdcn_norm NUM_COEFF v p t nv m c nc z num_frames =
             Ok z).
  { intros. unfold block_actual_cdcn_norm.
    replace (Z.to_nat num_frames) with 0 by lia. reflexivity. }
  split; [apply E|].
  unfold block_cdcn_norm.
  destruct (run_cdcn cdcn_variables =? 0)%Z; [reflexivity|].
  destruct (negb (firstcall cdcn_variables =? 0)%Z); [reflexivity | apply E].
Qed.

(** X2.  Nothing is carried from one frame to the next in the local buffer
    [x]: the step of a frame gives the same result whatever the buffer
    holds when the step starts. *)
Theorem frame_step_forgets_buffer
  (z : list (list F)) (i : nat) (x x' : list F) :
  length x = S NUM_COEFF ->
  length x' = S NUM_COEFF ->
  frame_step NUM_COEFF variance prob tilt means corrbook num_codes i (z, x) =
  frame_step NUM_COEFF variance prob tilt means corrbook num_codes i (z, x').
Proof.
  intros Hx Hx'. unfold frame_step, accumulate.
  now rewrite (init_x_ok NUM_COEFF x Hx), (init_x_ok NUM_COEFF x' Hx').
Qed.

(** X3.  The code never looks at [num_codes] except as the bound of the
    loop that starts at codeword 1: with [num_codes] equal to 1, to 0 or
    negative, codeword 0 is still weighed and the run is the run with one
    codeword. *)
Theorem num_codes_below_one_as_one
  (noise : list F) (z : list (list F)) (num_frames : Z) :
  (num_codes <= 1)%Z ->
  run noise means corrbook num_codes z num_frames =
  run noise means corrbook 1%Z z num_frames.
Proof.
  intros Hn. unfold block_actual_cdcn_norm.
  rewrite (for_count_ext
             (frame_step NUM_COEFF variance prob tilt means corrbook
                num_codes)
             (frame_step NUM_COEFF variance prob tilt means corrbook 1%Z));
    [reflexivity|].
  intros i [z' x]. unfold frame_step, accumulate, for_codes.
  replace (Z.to_nat (num_codes - 1)) with 0 by lia.
  reflexivity.
Qed.

(** X4.  On a well-shaped model and utterance the run makes no access out
    of bounds but that of line 121: either it returns normally, or it stops
    at [z[i][NUM_COEFF+1]] for a frame [i < num_frames] whose accumulated
    [den] fails the test [den != 0]. *)
Theorem run_ok_or_fallback_fault
  (noise : list F) (z : list (list F)) (num_frames : Z) :
  shape ->
  frames_ok NUM_COEFF z num_frames ->
  (exists z', run noise means corrbook num_codes z num_frames = Ok z') \/
  (exists (i : nat) (xs : list F) (den : F) (j : nat),
     i < Z.to_nat num_frames /\
     accumulate NUM_COEFF variance prob tilt means corrbook num_codes i z
       (repeat f0 (S NUM_COEFF)) = Ok (xs, den, j) /\
     fnonzero den = false /\
     run noise means corrbook num_codes z num_frames =
     Fault (At2 Az i (S NUM_COEFF))).
Proof.
  intros Hm Hz. rewrite (block_actual_val Hm noise z num_frames Hz).
  destruct (frames_val_code 0 (firstn (Z.to_nat num_frames) z))
    as [l|w] eqn:E.
  - left. eexists. reflexivity.
  - right. destruct (frames_val_Fault _ _ _ E) as (k & r & Hk & Hr & ->).
    apply nth_error_firstn_Some in Hk. destruct Hk as [Hlt Hk].
    assert (Hlen : length r = S NUM_COEFF).
    { destruct Hz as [_ Hrows]. rewrite Forall_forall in Hrows.
      apply Hrows. eapply nth_error_In; eassumption. }
    exists k, (x_vec NUM_COEFF variance prob tilt means corrbook num_codes r),
      (den_code r), (S NUM_COEFF).
    repeat split; auto.
    apply (accumulate_ok Hm z k r Hk Hlen). apply repeat_length.
Qed.



End More.

(** ** In exact arithmetic *)

Lemma exp_le_1 (x : R) : (x <= 0)%R -> (exp x <= 1)%R.
Proof.
  intros [Hlt | ->].
  - left. rewrite <- exp_0. now apply exp_increasing.
  - right. apply exp_0.
Qed.

Section MoreExact.

Variable NUM_COEFF : nat.

Variables (variance : list (list R)) (prob tilt : list R)
          (means corrbook : list (list R)) (num_codes : Z).

Local Open Scope R_scope.

Local Abbreviation shape :=
  (model_ok NUM_COEFF variance prob tilt means corrbook num_codes).
Local Abbreviation fk_code := (fk NUM_COEFF variance prob tilt means corrbook).
Local Abbreviation den_code :=
  (den_val NUM_COEFF variance prob tilt means corrbook num_codes).
Local Abbreviation run :=
  (block_actual_cdcn_norm NUM_COEFF variance prob tilt).

(** X7.  When the variances are strictly positive and the prior of
    codeword [k] is not negative, the weight the code computes for [k] lies
    between 0 and that prior. *)
Theorem weight_between_zero_and_prior
  (z : list (list R)) (i : nat) (zi : list R) (k : nat) :
  shape ->
  nth_error z i = Some zi ->
  length zi = S NUM_COEFF ->
  (k < Z.to_nat num_codes)%nat ->
  Forall (Forall (fun v => 0 < v)) variance ->
  0 <= at1 prob k ->
  exists (w : R) (j : nat),
    code_weight NUM_COEFF variance prob tilt means corrbook i k z =
    Ok (w, j) /\
    0 <= w <= at1 prob k.
Proof.
  intros Hm Hrow Hlen Hk Hv Hp.
  exists (fk_code zi k), (S NUM_COEFF).
  split; [apply (code_weight_ok Hm z i zi Hrow Hlen k Hk)|].
  split; [now apply fk_nonneg|].
  unfold fk, fk_of. rewrite dist_spec. cbn [fmul fexp fdiv fopp f2 RArith].
  pose proof (spec_distance_nonneg NUM_COEFF variance prob tilt means
                corrbook num_codes zi k Hm Hv Hk) as Hd.
  assert (He : exp (- spec_distance NUM_COEFF variance tilt means corrbook
                        zi k / 2) <= 1) by (apply exp_le_1; lra).
  pose proof (exp_pos (- spec_distance NUM_COEFF variance tilt means
                           corrbook zi k / 2)).
  nra.
Qed.

(** X8.  When no prior is negative and one is strictly positive, the whole
    run returns normally, whatever the frames: no frame reaches the
    fallback of line 121. *)
Theorem run_returns_with_nonnegative_priors
  (noise : list R) (z : list (list R)) (num_frames : Z) :
  shape ->
  frames_ok NUM_COEFF z num_frames ->
  Forall (fun p => 0 <= p) prob ->
  (exists k, (k < Z.to_nat num_codes)%nat /\ 0 < at1 prob k) ->
  exists z' : list (list R),
    run noise means corrbook num_codes z num_frames = Ok z' /\
    length z' = length z.
Proof.
  intros Hm Hz Hnn Hex. eexists. split.
  - apply (block_actual_ok Hm noise z num_frames Hz).
    apply Forall_forall. intros r _.
    now apply fnonzero_pos, den_val_pos.
  - destruct Hz as [Hn _].
    rewrite length_app, length_map, length_firstn, length_skipn. lia.
Qed.

Lemma fnonzero_neq (d : R) : d <> 0 -> fnonzero d = true.
Proof.
  intros Hd. cbn. destruct (Req_dec_T d 0); [contradiction | reflexivity].
Qed.

Lemma fnonzero_true_neq (d : R) : fnonzero d = true -> d <> 0.
Proof.
  cbn. destruct (Req_dec_T d 0); [discriminate | auto].
Qed.

Lemma at1_in_range (g : nat -> R) (c : nat) :
  (c < S NUM_COEFF)%nat ->
  at1 (map g (seq 0 (S NUM_COEFF))) c = g c.
Proof.
  intros Hc. unfold at1.
  rewrite (nth_indep _ f0 (g 0%nat)) by (rewrite length_map, length_seq; lia).
  rewrite (map_nth g). now rewrite seq_nth.
Qed.

Lemma fold_weighted_bounds (lo hi : R) (A Wt : nat -> R) (ks : list nat) :
  forall a w : R,
    (forall k, In k ks -> lo <= A k <= hi /\ 0 <= Wt k) ->
    lo * w <= a <= hi * w ->
    lo * fold_left Rplus (map Wt ks) w
    <= fold_left Rplus (map (fun k => A k * Wt k) ks) a
    <= hi * fold_left Rplus (map Wt ks) w.
Proof.
  induction ks as [|k ks IH]; intros a w Hk Haw; cbn [map fold_left].
  - assumption.
  - apply IH; [intros k' Hk'; apply Hk; now right|].
    destruct (Hk k (or_introl eq_refl)) as [[Hlo Hhi] Hw]. nra.
Qed.

(** X9.  The cleaned coefficient cannot leave the range of what the
    codewords [1 .. num_codes-1] contribute: when no prior is negative and
    one is strictly positive, if [z[j] - tilt[j] - corrbook[k][j]] lies in
    [[lo, hi]] for each of these codewords, with [lo <= 0 <= hi], then the
    value written to [z[i][j]] lies in [[lo, hi]] too. *)
Theorem cleaned_coefficient_in_range
  (z : list (list R)) (i : nat) (zi x : list R) (c : nat) (lo hi : R) :
  shape ->
  nth_error z i = Some zi ->
  length zi = S NUM_COEFF ->
  length x = S NUM_COEFF ->
  Forall (fun p => 0 <= p) prob ->
  (exists k, (k < Z.to_nat num_codes)%nat /\ 0 < at1 prob k) ->
  (c <= NUM_COEFF)%nat ->
  lo <= 0 <= hi ->
  (forall k, (1 <= k < Z.to_nat num_codes)%nat ->
             lo <= at1 zi c - at1 tilt c - at2 corrbook k c <= hi) ->
  exists (z' : list (list R)) (x' r : list R),
    frame_step NUM_COEFF variance prob tilt means corrbook num_codes i
      (z, x) = Ok (z', x') /\
    nth_error z' i = Some r /\
    lo <= at1 r c <= hi.
Proof.
  intros Hm Hrow Hlen Hx Hnn Hex Hc Hlohi Hrange.
  pose proof (den_val_pos NUM_COEFF variance prob tilt means corrbook
                num_codes zi Hm Hnn Hex) as Hpos.
  rewrite (frame_step_ok Hm z i zi Hrow Hlen x Hx).
  rewrite (fnonzero_pos _ Hpos).
  eexists _, _, _. split; [reflexivity|].
  assert (Hi : (i < length z)%nat) by (apply nth_error_Some; congruence).
  split; [now apply nth_error_set_nth_eq|].
  unfold clean, x_vec. rewrite map_map.
  rewrite at1_in_range by lia.
  cbn [fdiv RArith].
  assert (Hp : forall k, (k < Z.to_nat num_codes)%nat -> 0 <= at1 prob k).
  { intros k Hk. apply (at1_in prob k (fun p => 0 <= p)); [assumption|].
    destruct Hm as [_ _ _ _ Hlp _]. lia. }
  assert (Hc1 : (1 <= num_codes)%Z) by now destruct Hm.
  assert (Hb : lo * den_code zi
               <= x_val NUM_COEFF variance prob tilt means corrbook num_codes
                    zi c
               <= hi * den_code zi).
  { unfold den_val, x_val, contrib. cbn [fadd fmul fsub f0 RArith].
    apply (fold_weighted_bounds lo hi
             (fun k => at1 zi c - at1 tilt c - at2 corrbook k c)
             (fk_code zi)).
    - intros k Hk. unfold later_codes in Hk. apply in_seq in Hk.
      split; [apply Hrange; lia | apply fk_nonneg, Hp; lia].
    - assert (0 <= fk_code zi 0) by (apply fk_nonneg, Hp; lia). nra. }
  destruct Hb as [Hb1 Hb2]. split.
  - apply (Rmult_le_reg_r (den_code zi)); [assumption|].
    unfold Rdiv. rewrite Rmult_assoc, Rinv_l by lra. lra.
  - apply (Rmult_le_reg_r (den_code zi)); [assumption|].
    unfold Rdiv. rewrite Rmult_assoc, Rinv_l by lra. lra.
Qed.

(** *** The priors matter only up to a common factor *)

Lemma at1_scale (c : R) (v : list R) (k : nat) :
  at1 (map (Rmult c) v) k = c * at1 v k.
Proof.
  unfold at1. cbn [f0 RArith].
  transitivity (nth k (map (Rmult c) v) (c * 0)).
  - f_equal. ring.
  - apply (map_nth (Rmult c)).
Qed.

Lemma fold_scale (c : R) (g : nat -> R) (ks : list nat) :
  forall a : R,
    fold_left Rplus (map (fun k => c * g k) ks) (c * a)
    = c * fold_left Rplus (map g ks) a.
Proof.
  induction ks as [|k ks IH]; intros a; cbn [map fold_left]; [reflexivity|].
  rewrite <- IH. f_equal. ring.
Qed.

Local Abbreviation scaled c := (map (Rmult c) prob).

Lemma fk_scale (c : R) (zi : list R) (k : nat) :
  fk NUM_COEFF variance (scaled c) tilt means corrbook zi k
  = c * fk_code zi k.
Proof.
  unfold fk, fk_of. rewrite at1_scale. cbn [fmul RArith]. ring.
Qed.

Lemma den_val_scale (c : R) (zi : list R) :
  den_val NUM_COEFF variance (scaled c) tilt means corrbook num_codes zi
  = c * den_code zi.
Proof.
  unfold den_val. cbn [fadd RArith]. rewrite fk_scale, <- fold_scale.
  f_equal. apply map_ext. intros k. apply fk_scale.
Qed.

Lemma x_val_scale (c : R) (zi : list R) (j : nat) :
  x_val NUM_COEFF variance (scaled c) tilt means corrbook num_codes zi j
  = c * x_val NUM_COEFF variance prob tilt means corrbook num_codes zi j.
Proof.
  unfold x_val. cbn [fadd f0 RArith].
  rewrite <- fold_scale. f_equal; [|ring].
  apply map_ext. intros k. unfold contrib. rewrite fk_scale.
  cbn [fmul RArith]. ring.
Qed.

Lemma frames_val_scale (c : R) (rows : list (list R)) :
  c <> 0 ->
  forall i : nat,
    frames_val NUM_COEFF variance (scaled c) tilt means corrbook num_codes
      i rows
    = frames_val NUM_COEFF variance prob tilt means corrbook num_codes
        i rows.
Proof.
  intros Hc. induction rows as [|r t IH]; intros i; cbn [frames_val];
    [reflexivity|].
  rewrite den_val_scale.
  destruct (fnonzero (den_code r)) eqn:Hd.
  - apply fnonzero_true_neq in Hd.
    rewrite fnonzero_neq by (intros E; apply Rmult_integral in E; tauto).
    rewrite IH. destruct (frames_val _ _ _ _ _ _ _ (S i) t); [|reflexivity].
    cbn [bind]. do 2 f_equal.
    unfold clean, x_vec. rewrite !map_map. apply map_ext. intros j.
    rewrite x_val_scale, den_val_scale. cbn [fdiv RArith]. now field.
  - assert (E : den_code r = 0).
    { destruct (Req_dec_T (den_code r) 0) as [E|E]; [exact E|].
      rewrite (fnonzero_neq _ E) in Hd. discriminate. }
    rewrite E, Rmult_0_r, fnonzero_zero. reflexivity.
Qed.

(** X10.  Only the ratios of the priors matter: multiplying every prior by
    the same non-zero factor changes nothing in the result of the run. *)
Theorem priors_up_to_a_factor
  (noise : list R) (z : list (list R)) (num_frames : Z) (c : R) :
  shape ->
  frames_ok NUM_COEFF z num_frames ->
  c <> 0 ->
  block_actual_cdcn_norm NUM_COEFF variance (scaled c) tilt noise means
    corrbook num_codes z num_frames =
  run noise means corrbook num_codes z num_frames.
Proof.
  intros Hm Hz Hc.
  assert (Hm' : model_ok NUM_COEFF variance (scaled c) tilt means corrbook
                  num_codes).
  { destruct Hm. constructor; auto. now rewrite length_map. }
  rewrite (block_actual_val Hm' noise z num_frames Hz).
  rewrite (block_actual_val Hm noise z num_frames Hz).
  now rewrite frames_val_scale.
Qed.

End MoreExact.

Section MoreExactSingle.

Variable NUM_COEFF : nat.

Variables (variance : list (list R)) (prob tilt : list R)
          (means corrbook : list (list R)).

Local Open Scope R_scope.

(** X11.  With a single codeword whose prior is not zero, the run returns
    and every processed frame comes back as the zero vector, whatever was
    observed; the frames from [num_frames] on are as they were. *)
Theorem single_codeword_run_all_zero
  (noise : list R) (z : list (list R)) (num_frames : Z) :
  model_ok NUM_COEFF variance prob tilt means corrbook 1 ->
  frames_ok NUM_COEFF z num_frames ->
  at1 prob 0 <> 0 ->
  block_actual_cdcn_norm NUM_COEFF variance prob tilt noise means corrbook 1
    z num_frames =
  Ok (repeat (repeat 0 (S NUM_COEFF)) (Z.to_nat num_frames)
      ++ skipn (Z.to_nat num_frames) z).
Proof.
  intros Hm Hz Hp.
  assert (Hden : forall r,
             den_val NUM_COEFF variance prob tilt means corrbook 1 r <> 0).
  { intros r. unfold den_val, later_codes.
    change (seq 1 (Z.to_nat (1 - 1))) with (@nil nat). cbn [map fold_left].
    unfold fk, fk_of. cbn [fmul fexp RArith].
    apply Rmult_integral_contrapositive_currified; [|exact Hp].
    apply Rgt_not_eq, exp_pos. }
  rewrite (block_actual_ok Hm noise z num_frames Hz).
  - do 2 f_equal.
    rewrite (map_ext _ (fun _ => repeat 0 (S NUM_COEFF))).
    + rewrite map_const, length_firstn. f_equal. destruct Hz. lia.
    + intros r. unfold clean, x_vec, x_val, later_codes.
      change (seq 1 (Z.to_nat (1 - 1))) with (@nil nat).
      cbn [map fold_left]. rewrite map_map.
      cbn [fdiv f0 RArith]. rewrite Rdiv_0_l.
      exact (map_const_seq 0 (S NUM_COEFF) 0%nat).
  - apply Forall_forall. intros r _. apply fnonzero_neq, Hden.
Qed.

End MoreExactSingle.

Section Shift.

Variable NUM_COEFF : nat.

Variables (variance : list (list R)) (prob tilt : list R)
          (means corrbook : list (list R)) (num_codes : Z).

(** The vector added to the tilt and to every frame. *)
Variable v : list R.

Local Open Scope R_scope.

Lemma at1_vadd (u : list R) :
  forall (w : list R) (j : nat),
    length u = length w -> at1 (vadd u w) j = at1 u j + at1 w j.
Proof.
  unfold at1, vadd. cbn [f0 RArith].
  induction u as [|a u IH]; intros [|b w] j Hl; try discriminate.
  - destruct j; cbn; ring.
  - destruct j as [|j]; cbn [combine map nth fst snd]; [reflexivity|].
    apply IH. now injection Hl.
Qed.

Lemma vadd_length (u w : list R) :
  length u = length w -> length (vadd u w) = length u.
Proof.
  intros Hl. unfold vadd. rewrite length_map, length_combine. lia.
Qed.

Hypothesis Htilt : length tilt = S NUM_COEFF.
Hypothesis Hv : length v = S NUM_COEFF.

Section Row.

Variable r : list R.
Hypothesis Hr : length r = S NUM_COEFF.

Ltac shift_terms :=
  cbn [fsub fmul fdiv fadd RArith];
  rewrite !at1_vadd by congruence;
  unfold Rdiv; first [ f_equal; ring | f_equal; f_equal; ring ].

Lemma dist_shift (k : nat) :
  dist NUM_COEFF variance (vadd tilt v) means corrbook (vadd r v) k
  = dist NUM_COEFF variance tilt means corrbook r k.
Proof.
  destruct k as [|k]; cbn [dist].
  - replace (term_first variance (vadd tilt v) means corrbook (vadd r v) 0)
      with (term_first variance tilt means corrbook r 0)
      by (unfold term_first; shift_terms).
    apply fold_left_ext. intros a j. unfold term0. shift_terms.
  - replace (term_first variance (vadd tilt v) means corrbook (vadd r v)
               (S k))
      with (term_first variance tilt means corrbook r (S k))
      by (unfold term_first; shift_terms).
    apply fold_left_ext. intros a j. unfold termk. shift_terms.
Qed.

Lemma fk_shift (k : nat) :
  fk NUM_COEFF variance prob (vadd tilt v) means corrbook (vadd r v) k
  = fk NUM_COEFF variance prob tilt means corrbook r k.
Proof. unfold fk. now rewrite dist_shift. Qed.

Lemma den_val_shift :
  den_val NUM_COEFF variance prob (vadd tilt v) means corrbook num_codes
    (vadd r v)
  = den_val NUM_COEFF variance prob tilt means corrbook num_codes r.
Proof.
  unfold den_val. rewrite fk_shift. f_equal.
  apply map_ext. intros k. apply fk_shift.
Qed.

Lemma clean_shift :
  clean NUM_COEFF variance prob (vadd tilt v) means corrbook num_codes
    (vadd r v)
  = clean NUM_COEFF variance prob tilt means corrbook num_codes r.
Proof.
  unfold clean. rewrite den_val_shift. f_equal.
  unfold x_vec. apply map_ext. intros j. unfold x_val. f_equal.
  apply map_ext. intros k. unfold contrib. rewrite fk_shift.
  cbn [fsub fmul RArith]. rewrite !at1_vadd by congruence. ring.
Qed.

End Row.

Lemma frames_val_shift (rows : list (list R)) :
  Forall (fun r => length r = S NUM_COEFF) rows ->
  forall i : nat,
    frames_val NUM_COEFF variance prob (vadd tilt v) means corrbook
      num_codes i (map (fun r => vadd r v) rows)
    = frames_val NUM_COEFF variance prob tilt means corrbook num_codes
        i rows.
Proof.
  induction 1 as [|r t Hr Ht IH]; intros i; cbn [map frames_val];
    [reflexivity|].
  rewrite den_val_shift, clean_shift, IH by assumption. reflexivity.
Qed.

(** X12.  The tilt acts as an offset of the observation and of nothing
    else: when all the frames are processed, adding one and the same vector
    to the tilt and to every frame changes nothing in the result of the
    run. *)
Theorem tilt_is_an_offset_of_the_frames
  (noise : list R) (z : list (list R)) (num_frames : Z) :
  model_ok NUM_COEFF variance prob tilt means corrbook num_codes ->
  frames_ok NUM_COEFF z num_frames ->
  length z = Z.to_nat num_frames ->
  block_actual_cdcn_norm NUM_COEFF variance prob (vadd tilt v) noise means
    corrbook num_codes (map (fun r => vadd r v) z) num_frames =
  block_actual_cdcn_norm NUM_COEFF variance prob tilt noise means corrbook
    num_codes z num_frames.
Proof.
  intros Hm Hz Hall.
  assert (Hm' : model_ok NUM_COEFF variance prob (vadd tilt v) means
                  corrbook num_codes).
  { destruct Hm. constructor; auto. rewrite vadd_length; congruence. }
  assert (Hz' : frames_ok NUM_COEFF (map (fun r => vadd r v) z) num_frames).
  { destruct Hz as [Hn Hrows]. split; [now rewrite length_map|].
    apply Forall_forall. intros r Hr. apply in_map_iff in Hr.
    destruct Hr as [r0 [<- Hr0]]. rewrite Forall_forall in Hrows.
    rewrite vadd_length; rewrite (Hrows r0 Hr0); congruence. }
  rewrite (block_actual_val Hm' noise _ num_frames Hz').
  rewrite (block_actual_val Hm noise z num_frames Hz).
  rewrite <- Hall, firstn_map, !firstn_all.
  rewrite !skipn_all2 by (rewrite ?length_map; lia).
  rewrite frames_val_shift by (destruct Hz; assumption).
  reflexivity.
Qed.

End Shift.

(** ** Concrete runs for the further properties *)

Local Open Scope R_scope.

Ltac frames_shape_ok := split; [cbn; lia | repeat constructor].



Lemma no_frames_nothing_done_witness :
  block_actual_cdcn_norm 1 ex_variance ex_prob ex_tilt ex_noise ex_means
    ex_corrbook 2 ex_z 0 = Ok ex_z /\
  block_cdcn_norm 1 ex_z 0
    {| means := ex_means; variance := ex_variance; probs := ex_prob;
       num_codes := 2; noise := ex_noise; tilt := ex_tilt;
       corrbook := ex_corrbook; firstcall := 0; run_cdcn := 1 |} = Ok ex_z.
Proof.
  refine (no_frames_nothing_done 1 ex_variance ex_prob ex_tilt ex_means
            ex_corrbook 2 ex_noise ex_z 0 _ _).
  lia.
Defined.

Lemma frame_step_forgets_buffer_witness :
  frame_step 1 ex_variance ex_prob ex_tilt ex_means ex_corrbook 2 0
    (ex_z, [0; 0]) =
  frame_step 1 ex_variance ex_prob ex_tilt ex_means ex_corrbook 2 0
    (ex_z, [5; 7]).
Proof.
  refine (frame_step_forgets_buffer 1 ex_variance ex_prob ex_tilt ex_means
            ex_corrbook 2 ex_z 0 [0; 0] [5; 7] _ _); reflexivity.
Defined.

Lemma num_codes_below_one_as_one_witness :
  block_actual_cdcn_norm 1 one_variance [1] ex_tilt ex_noise one_means
    one_corrbook 0 ex_z 2 =
  block_actual_cdcn_norm 1 one_variance [1] ex_tilt ex_noise one_means
    one_corrbook 1 ex_z 2.
Proof.
  refine (num_codes_below_one_as_one 1 one_variance [1] ex_tilt one_means
            one_corrbook 0 ex_noise ex_z 2 _).
  lia.
Defined.

Lemma run_ok_or_fallback_fault_witness :
  (exists z',
     block_actual_cdcn_norm 1 ex_variance ex_prob ex_tilt ex_noise ex_means
       ex_corrbook 2 ex_z 2 = Ok z') \/
  (exists (i : nat) (xs : list R) (den : R) (j : nat),
     (i < 2)%nat /\
     accumulate 1 ex_variance ex_prob ex_tilt ex_means ex_corrbook 2 i ex_z
       [0; 0] = Ok (xs, den, j) /\
     fnonzero den = false /\
     block_actual_cdcn_norm 1 ex_variance ex_prob ex_tilt ex_noise ex_means
       ex_corrbook 2 ex_z 2 = Fault (At2 Az i 2)).
Proof.
  refine (run_ok_or_fallback_fault 1 ex_variance ex_prob ex_tilt ex_means
            ex_corrbook 2 ex_noise ex_z 2 _ _);
    [shape_ok | frames_shape_ok].
Defined.



Lemma weight_between_zero_and_prior_witness :
  exists (w : R) (j : nat),
    code_weight 1 ex_variance ex_prob ex_tilt ex_means ex_corrbook 0 1 ex_z =
    Ok (w, j) /\
    0 <= w <= 1.
Proof.
  refine (weight_between_zero_and_prior 1 ex_variance ex_prob ex_tilt
            ex_means ex_corrbook 2 ex_z 0 [1; 2] 1 _ _ _ _ _ _);
    try solve [shape_ok]. cbn. lra.
Defined.

Lemma run_returns_with_nonnegative_priors_witness :
  exists z' : list (list R),
    block_actual_cdcn_norm 1 ex_variance ex_prob ex_tilt ex_noise ex_means
      ex_corrbook 2 ex_z 2 = Ok z' /\
    length z' = 2%nat.
Proof.
  refine (run_returns_with_nonnegative_priors 1 ex_variance ex_prob ex_tilt
            ex_means ex_corrbook 2 ex_noise ex_z 2 _ _ _ _);
    [shape_ok | frames_shape_ok | shape_ok |].
  exists 0%nat. split; [cbn; lia | cbn; lra].
Defined.

Lemma cleaned_coefficient_in_range_witness :
  exists (z' : list (list R)) (x' r : list R),
    frame_step 1 ex_variance ex_prob ex_tilt ex_means ex_corrbook 2 0
      (ex_z, [0; 0]) = Ok (z', x') /\
    nth_error z' 0 = Some r /\
    -1 <= at1 r 1 <= 1.
Proof.
  refine (cleaned_coefficient_in_range 1 ex_variance ex_prob ex_tilt
            ex_means ex_corrbook 2 ex_z 0 [1; 2] [0; 0] 1 (-1) 1
            _ _ _ _ _ _ _ _ _);
    try solve [shape_ok].
  - exists 0%nat. split; [cbn; lia | cbn; lra].
  - lra.
  - intros k Hk. assert (k = 1%nat) by (cbn in Hk; lia). subst k.
    cbn. lra.
Defined.

Lemma priors_up_to_a_factor_witness :
  block_actual_cdcn_norm 1 ex_variance (map (Rmult 2) ex_prob) ex_tilt
    ex_noise ex_means ex_corrbook 2 ex_z 2 =
  block_actual_cdcn_norm 1 ex_variance ex_prob ex_tilt ex_noise ex_means
    ex_corrbook 2 ex_z 2.
Proof.
  refine (priors_up_to_a_factor 1 ex_variance ex_prob ex_tilt ex_means
            ex_corrbook 2 ex_noise ex_z 2 2 _ _ _);
    [shape_ok | frames_shape_ok | lra].
Defined.

Lemma single_codeword_run_all_zero_witness :
  block_actual_cdcn_norm 1 one_variance [1] ex_tilt ex_noise one_means
    one_corrbook 1 ex_z 1 = Ok [[0; 0]; [3; 4]].
Proof.
  refine (single_codeword_run_all_zero 1 one_variance [1] ex_tilt one_means
            one_corrbook ex_noise ex_z 1 _ _ _);
    [shape_ok | frames_shape_ok | cbn; lra].
Defined.

Lemma tilt_is_an_offset_of_the_frames_witness :
  block_actual_cdcn_norm 1 ex_variance ex_prob (vadd ex_tilt [1; 1])
    ex_noise ex_means ex_corrbook 2
    (map (fun r => vadd r [1; 1]) ex_z) 2 =
  block_actual_cdcn_norm 1 ex_variance ex_prob ex_tilt ex_noise ex_means
    ex_corrbook 2 ex_z 2.
Proof.
  refine (tilt_is_an_offset_of_the_frames 1 ex_variance ex_prob ex_tilt
            ex_means ex_corrbook 2 [1; 1] _ _ ex_noise ex_z 2 _ _ _);
    try reflexivity; [shape_ok | frames_shape_ok].
Defined.
